(** * Positron: shorthand expansion, validation and cascade of CSS styles

    A shallow embedding of [Style.py] (the acceptors, the property registry
    and the default styles, [join_styles], the handling of [!important],
    [SourceSheet.all_rules], [split], [is_valid], [process_property],
    [process_input] and [process]), the properties of it that the
    specification states, and further properties that the code has.

    Conventions of the embedding.
    - A Python [str] is a [string]: a sequence of code points below 256.
    - A Python number is a rational ([Q]); every finite float is one, and the
      comparisons the code makes are exact on them. Rounding of float
      arithmetic is not modelled.
    - A Python call either returns or raises: [py A] with [Return] and
      [Raise]. [with suppress(E)] and [try/except E] are written out where the
      source has them, so an exception the source does not catch propagates.
    - A [dict] that is iterated ([done], the expansion of one property) is a
      list of items in insertion order; a [dict] that is only read by key is
      a [gmap].
    - What [Style.py] imports from [config], [own_types] and [util], which the
      repository keeps in other modules, is a field of [Env] or a definition
      marked as modelled. *)

From Stdlib Require Import Ascii String QArith Qminmax.
From stdpp Require Import gmap strings list pretty.

Local Open Scope string_scope.
Local Open Scope list_scope.

(** ** Exceptions and results *)

Inductive exn : Set :=
  | AssertionError (args : option string)
  | ValueError
  | TypeError
  | KeyError
  | AttributeError
  | IndexError.

Inductive py (A : Type) : Type :=
  | Return (a : A)
  | Raise (e : exn).
Arguments Return {A} a.
Arguments Raise {A} e.

#[global] Instance py_ret : MRet py := @Return.
#[global] Instance py_bind : MBind py :=
  λ A B f m, match m with Return a => f a | Raise e => Raise e end.
#[global] Instance py_fmap : FMap py :=
  λ A B f m, match m with Return a => Return (f a) | Raise e => Raise e end.

(** [assert cond] and [assert cond, msg]: the message, when there is one, is
    the only element of [e.args]. *)
Definition py_assert (cond : bool) (msg : option string) : py unit :=
  if cond then Return tt else Raise (AssertionError msg).

Definition is_KeyError (e : exn) : bool :=
  match e with KeyError => true | _ => false end.
Definition is_AttributeError (e : exn) : bool :=
  match e with AttributeError => true | _ => false end.
Definition is_AssertionError (e : exn) : bool :=
  match e with AssertionError _ => true | _ => false end.

(** ** Strings *)

(** Python's whitespace ([str.isspace], [\s] of [re] on [str]) among the code
    points below 256. *)
Definition isspace (c : ascii) : bool :=
  let n := nat_of_ascii c in
  (((9 <=? n) && (n <=? 13)) || ((28 <=? n) && (n <=? 32)) || (n =? 133) || (n =? 160))%nat.

Definition str_in (x : string) (l : list string) : bool :=
  existsb (String.eqb x) l.

(** [str.split()] without argument: the maximal runs of non-whitespace. *)
Fixpoint str_split_go (cur : string) (s : string) : list string :=
  match s with
  | EmptyString => if String.eqb cur EmptyString then [] else [cur]
  | String c s' =>
      if isspace c
      then (if String.eqb cur EmptyString then [] else [cur]) ++ str_split_go EmptyString s'
      else str_split_go (cur +:+ String c EmptyString) s'
  end.
Definition str_split (s : string) : list string := str_split_go EmptyString s.

(** [''.join(l)] *)
Definition str_join0 (l : list string) : string :=
  foldr String.append EmptyString l.

(** [sep.join(l)] *)
Fixpoint str_join (sep : string) (l : list string) : string :=
  match l with
  | [] => EmptyString
  | [x] => x
  | x :: l' => x +:+ sep +:+ str_join sep l'
  end.

(** ** [split]: the tokens of a value, parentheses kept together *)

Fixpoint split_loop (s : string) (rec : bool) (result : list string)
    (curr_string : string) (brackets : nat) : py (list string) :=
  match s with
  | EmptyString => Return (if rec then result ++ [curr_string] else result)
  | String c s' =>
      let is_w := isspace c in
      let '(rec, result, curr_string) :=
        if rec && (brackets =? 0)%nat && is_w
        then (false, result ++ [curr_string], EmptyString)
        else (rec, result, curr_string) in
      let '(rec, curr_string) :=
        if negb is_w then (true, curr_string +:+ String c EmptyString)
        else (rec, curr_string) in
      if Ascii.eqb c "(" then split_loop s' rec result curr_string (S brackets)
      else if Ascii.eqb c ")" then
        match brackets with
        | 0 => Raise (AssertionError None)
        | S b => split_loop s' rec result curr_string b
        end
      else split_loop s' rec result curr_string brackets
  end.

Definition split (s : string) : py (list string) :=
  split_loop s true [] EmptyString 0.

(** [str.strip()] *)
Fixpoint str_lstrip (s : string) : string :=
  match s with
  | String c s' => if isspace c then str_lstrip s' else s
  | EmptyString => EmptyString
  end.
Fixpoint str_rstrip (s : string) : string :=
  match s with
  | String c s' =>
      let r := str_rstrip s' in
      if String.eqb r EmptyString && isspace c then EmptyString else String c r
  | EmptyString => EmptyString
  end.
Definition str_strip (s : string) : string := str_rstrip (str_lstrip s).

(** [fstring.format(k)] for a template with one [{}] field. *)
Fixpoint format1 (fstring arg : string) : string :=
  match fstring with
  | String "{" (String "}" rest) => arg +:+ rest
  | String c rest => String c (format1 rest arg)
  | EmptyString => EmptyString
  end.

(** ** Computed values *)

Record Color : Set := mkColor { red : Z; green : Z; blue : Z; alpha : Z }.

Inductive CompValue : Type :=
  | Number (x : Q)
  | Percentage (x : Q)
  | ColorV (c : Color)
  | Auto
  | Normal
  | FontStyleV (args : list string)
  | Str (s : string).

Abbreviation StyleComputed := (gmap string CompValue).

(** [d[k]] *)
Definition getitem {A} (d : gmap string A) (k : string) : py A :=
  match d !! k with
  | Some v => Return v
  | None => Raise KeyError
  end.

(** A value used as an operand of [*], [<] or [<=] with a number. *)
Definition as_number (v : CompValue) : py Q :=
  match v with
  | Number x => Return x
  | _ => Raise TypeError
  end.

Definition Qltb (x y : Q) : bool := negb (Qle_bool y x).

(** ** What the other modules of the repository provide *)

(** [g["root"]] as [_length] reads it in [g["root"]._style["font-size"]]:
    [g] has no entry [root] (the subscript raises [KeyError]), or the entry
    is [None] or an object without the attribute [_style] (the attribute
    access raises [AttributeError]), or it is an element with its computed
    style. *)
Inductive Root : Type :=
  | NoRoot
  | RootWithout_style
  | RootStyle (_style : StyleComputed).

Record Env : Type := mkEnv {
  (** [config] *)
  abs_length_units : gmap string Q;
  abs_font_size : gmap string Z;
  rel_font_size : gmap string Z;
  abs_font_weight : gmap string CompValue;
  abs_border_width : gmap string CompValue;
  g_W : Q;
  g_H : Q;
  g_default_font_size : Q;
  (** [g["root"]] *)
  g_root : Root;
  (** [pygame.colordict.THECOLORS] as [pygame] ships it *)
  THECOLORS : gmap string Color;
  (** [own_types.Color(value)] of one string; [None] is its [ValueError] *)
  Color_of_str : string → option Color;
  (** [own_types.FontStyle], applied to the words it is given *)
  FontStyle : list string → py CompValue;
  (** [util.check_regex(name, to_check)], as a truth value *)
  check_regex : string → string → bool;
  (** [split_units_pattern.fullmatch(s)]: the pattern is built from
      [util.dec_re]; [Some (num, unit)] are the two groups of the match *)
  split_units_pattern_fullmatch : string → option (string * string);
  (** the builtin [float(s)] of a string: the number it denotes, [None] being
      its [ValueError] *)
  float : string → option Q;
}.

(** ** Acceptors *)

Section Acceptors.
Context (env : Env).

Definition _length (dimension : Q * string) (p_style : StyleComputed) : py CompValue :=
  let '(num, s) := dimension in
  if Qeq_bool num 0 then Return (Number 0)
  else
    let abs_length := abs_length_units env in
    let w := g_W env in
    let h := g_H env in
    match abs_length !! s with
    | Some u => Return (Number (u * num))
    | None =>
        if String.eqb s "em" then
          fs ← getitem p_style "font-size"; x ← as_number fs; Return (Number (x * num))
        else if String.eqb s "rem" then
          match g_root env with
          | NoRoot => Raise KeyError
          | RootWithout_style => Raise AttributeError
          | RootStyle _style =>
              fs ← getitem _style "font-size"; x ← as_number fs; Return (Number (x * num))
          end
        else if String.eqb s "vw" then Return (Number (num * (1 # 100) * w))
        else if String.eqb s "vh" then Return (Number (num * (1 # 100) * h))
        else if String.eqb s "vmin" then Return (Number (num * (1 # 100) * Qmin w h))
        else if String.eqb s "vmax" then Return (Number (num * (1 # 100) * Qmax w h))
        else Raise ValueError
    end.

(** *** [color] *)

Definition is_digit (c : ascii) : bool :=
  let n := nat_of_ascii c in ((48 <=? n) && (n <=? 57))%nat.

Fixpoint take_digits (s : string) : string * string :=
  match s with
  | String c s' =>
      if is_digit c then let '(d, r) := take_digits s' in (String c d, r)
      else (EmptyString, s)
  | EmptyString => (EmptyString, EmptyString)
  end.

Fixpoint expect (lit s : string) : option string :=
  match lit, s with
  | EmptyString, _ => Some s
  | String a lit', String b s' => if Ascii.eqb a b then expect lit' s' else None
  | String _ _, EmptyString => None
  end.

(** [([+-]?\d+)] at the head of [s]: the group and what follows it. *)
Definition re_int (s : string) : option (string * string) :=
  let '(sign, s1) :=
    match s with
    | String c s' =>
        if Ascii.eqb c "+" || Ascii.eqb c "-" then (String c EmptyString, s')
        else (EmptyString, s)
    | EmptyString => (EmptyString, s)
    end in
  let '(d, r) := take_digits s1 in
  if String.eqb d EmptyString then None else Some (sign +:+ d, r).

(** [,?\)] *)
Definition re_close (s : string) : option string :=
  match expect "," s ≫= expect ")" with
  | Some r => Some r
  | None => expect ")" s
  end.

(** [name\(int,int,int,?\)] with [n] integers: the groups. *)
Fixpoint re_ints (n : nat) (s : string) : option (list string) :=
  match n with
  | 0 => None
  | 1 => '(i, r) ← re_int s; _ ← re_close r; Some [i]
  | S n' => '(i, r) ← re_int s; r' ← expect "," r; l ← re_ints n' r'; Some (i :: l)
  end.

Definition rgb_re_match (s : string) : option (list string) :=
  r ← expect "rgb(" s;
  match re_ints 3 r with
  | Some l => Some l
  | None => re_ints 4 r
  end.

Definition rgba_re_match (s : string) : option (list string) :=
  r ← expect "rgba(" s; re_ints 4 r.

(** [int(s)] of a group of [re_int]. *)
Definition digit_val (c : ascii) : Z := Z.of_nat (nat_of_ascii c) - 48.
Fixpoint int_of_digits (acc : Z) (s : string) : Z :=
  match s with
  | String c s' => int_of_digits (10 * acc + digit_val c) s'
  | EmptyString => acc
  end.
Definition int (s : string) : Z :=
  match s with
  | String "-" s' => - int_of_digits 0 s'
  | String "+" s' => int_of_digits 0 s'
  | _ => int_of_digits 0 s
  end.

(** Modelled from the spec: [own_types.Color(r, g, b[, a])], the
    constructor of [Color] from channels, is not in [Style.py]; a colour
    has three or four channels, each within 0..255, anything else is its
    [ValueError]. *)
Definition channel (x : Z) : bool := (0 <=? x)%Z && (x <=? 255)%Z.
Definition Color_of_ints (l : list Z) : option Color :=
  match l with
  | [r; g; b] => if forallb channel l then Some (mkColor r g b 255) else None
  | [r; g; b; a] => if forallb channel l then Some (mkColor r g b a) else None
  | _ => None
  end.

Definition color (value : string) (p_style : StyleComputed) : py (option CompValue) :=
  if String.eqb value "currentcolor" then Some <$> getitem p_style "color"
  else
    let value := str_join0 (str_split value) in
    (* with suppress(ValueError) *)
    match (match rgb_re_match value with Some m => Some m | None => rgba_re_match value end) with
    | Some groups => Return (ColorV <$> Color_of_ints (int <$> groups))
    | None => Return (ColorV <$> Color_of_str env value)
    end.

(** *** Lengths *)

Definition split_units (attr : string) : py (Q * string) :=
  match split_units_pattern_fullmatch env (str_strip attr) with
  | None => Raise AttributeError
  | Some (num, unit) =>
      match float env num with
      | Some x => Return (x, unit)
      | None => Raise ValueError
      end
  end.

Definition length (value : string) (p_style : StyleComputed) : py (option CompValue) :=
  (* with suppress(AttributeError) *)
  match split_units value ≫= λ d, _length d p_style with
  | Return v => Return (Some v)
  | Raise e => if is_AttributeError e then Return None else Raise e
  end.

(** Modelled from the spec: [own_types.Percentage] is not in [Style.py];
    [Percentage(num)] is the symbolic percentage, and multiplied by a base
    it is that share of the base. *)
Definition Percentage_mul (mult : CompValue) (num : Q) : py CompValue :=
  m ← as_number mult; Return (Number (m * (num / 100))).

Definition length_percentage (value : string) (p_style : StyleComputed)
    (mult : option CompValue) : py (option CompValue) :=
  (* with suppress(AttributeError) *)
  match
    '(num, unit) ← split_units value;
    if String.eqb unit "%" then
      match mult with
      | None => Return (Percentage num)
      | Some m => Percentage_mul m num
      end
    else _length (num, unit) p_style
  with
  | Return v => Return (Some v)
  | Raise e => if is_AttributeError e then Return None else Raise e
  end.

(** *** Fonts *)

Definition font_size (value : string) (p_style : StyleComputed) : py (option CompValue) :=
  match abs_font_size env !! value with
  | Some k => Return (Some (Number (g_default_font_size env * Qpower (12 # 10) k)))
  | None =>
      p_size ← getitem p_style "font-size";
      match rel_font_size env !! value with
      | Some k => x ← as_number p_size; Return (Some (Number (x * Qpower (12 # 10) k)))
      | None => length_percentage value p_style (Some p_size)
      end
  end.

Definition font_weight (value : string) (p_style : StyleComputed) : py (option CompValue) :=
  p_size ← getitem p_style "font-weight";
  if String.eqb value "lighter" then
    p ← as_number p_size;
    if Qltb p 100 then Return (Some p_size)
    else if Qltb p 550 then Return (Some (Number 100))
    else if Qltb p 700 then Return (Some (Number 400))
    else if Qle_bool p 1000 then Return (Some (Number 700))
    else Raise ValueError
  else if String.eqb value "bolder" then
    p ← as_number p_size;
    if Qltb p 350 then Return (Some (Number 400))
    else if Qltb p 550 then Return (Some (Number 700))
    else if Qltb p 900 then Return (Some (Number 900))
    else Return (Some p_size)
  else
    (* with suppress(ValueError) *)
    match float env value with
    | Some n => if Qltb 0 n && Qle_bool n 1000 then Return (Some (Number n)) else Return None
    | None => Return None
    end.

Definition font_style (value : string) (p_style : StyleComputed) : py (option CompValue) :=
  let split := take 2 (str_split value) in
  (* with suppress(AssertionError) *)
  match FontStyle env split with
  | Return v => Return (Some v)
  | Raise e => if is_AssertionError e then Return None else Raise e
  end.

Definition no_change (value : string) (p_style : StyleComputed) : py (option CompValue) :=
  Return (Some (Str value)).

(** Modelled from the spec: [util.noop], the default acceptor of a
    [StyleAttr], is not in [Style.py]; it accepts nothing, so that a
    property without an acceptor takes its keywords only. *)
Definition noop (value : string) (p_style : StyleComputed) : py (option CompValue) :=
  Return None.

End Acceptors.

(** ** The property registry *)

Inductive Acceptor : Set :=
  | acc_color
  | acc_font_weight
  | acc_no_change
  | acc_font_size
  | acc_font_style
  | acc_length_percentage
  | acc_noop.

Definition is_length_percentage (a : Acceptor) : bool :=
  match a with acc_length_percentage => true | _ => false end.

Definition accept (env : Env) (a : Acceptor) (value : string) (p_style : StyleComputed)
    : py (option CompValue) :=
  match a with
  | acc_color => color env value p_style
  | acc_font_weight => font_weight env value p_style
  | acc_no_change => no_change value p_style
  | acc_font_size => font_size env value p_style
  | acc_font_style => font_style env value p_style
  | acc_length_percentage => length_percentage env value p_style None
  | acc_noop => noop value p_style
  end.

Record StyleAttr : Type := mkStyleAttr {
  initial : string;
  kws : gmap string CompValue;
  acc : Acceptor;
  inherits : bool;
}.

(** [StyleAttr.__init__] *)
Definition StyleAttr_init (initial : string) (kws : gmap string CompValue)
    (acc : Acceptor) (inherits : option bool) : StyleAttr :=
  {| initial := initial; kws := kws; acc := acc;
     inherits := match inherits with
                 | Some b => b
                 | None => negb (is_length_percentage acc)
                 end |}.

(** [StyleAttr.set2dict] of a set of strings *)
Definition set2dict (s : list string) : gmap string CompValue :=
  list_to_map ((λ x, (x, Str x)) <$> s).

Definition in_dict {A} (k : string) (m : gmap string A) : bool :=
  match m !! k with Some _ => true | None => false end.

(** [StyleAttr.convert] *)
Definition convert (env : Env) (self : StyleAttr) (value : string) (p_style : StyleComputed)
    : py (option CompValue) :=
  match kws self !! value with
  | Some kw => Return (Some kw)
  | None => accept env (acc self) value p_style
  end.

Definition auto : gmap string CompValue := {[ "auto" := Auto ]}.
Definition normal : gmap string CompValue := {[ "normal" := Normal ]}.

Definition AALP : StyleAttr := StyleAttr_init "auto" auto acc_length_percentage None.
Definition BorderWidthAttr (env : Env) : StyleAttr :=
  StyleAttr_init "medium" (abs_border_width env) acc_length_percentage None.
Definition BorderStyleAttr : StyleAttr :=
  StyleAttr_init "none"
    (set2dict ["none"; "hidden"; "dotted"; "dashed"; "solid"; "double"; "groove";
               "ridge"; "inset"; "outset"])
    acc_noop (Some false).

Definition directions : list string := ["top"; "right"; "bottom"; "left"].

(** Modelled from the spec: the key tuples of [util] are not in [Style.py];
    they are the longhand names of the four sides, the names that the
    templates of [dir_shorthands] produce. *)
Definition inset_keys : list string := directions.
Definition pad_keys : list string := (λ k, "padding-" +:+ k) <$> directions.
Definition marg_keys : list string := (λ k, "margin-" +:+ k) <$> directions.
Definition bw_keys : list string := (λ k, "border-" +:+ k +:+ "-width") <$> directions.
Definition bc_keys : list string := (λ k, "border-" +:+ k +:+ "-color") <$> directions.
Definition bs_keys : list string := (λ k, "border-" +:+ k +:+ "-style") <$> directions.

Definition style_attrs (env : Env) : list (string * StyleAttr) :=
  [ ("color", StyleAttr_init "canvastext" ∅ acc_color None);
    ("font-weight", StyleAttr_init "normal" (abs_font_weight env) acc_font_weight None);
    ("font-family", StyleAttr_init "Arial" ∅ acc_no_change None);
    ("font-size", StyleAttr_init "medium" ∅ acc_font_size None);
    ("font-style", StyleAttr_init "normal" ∅ acc_font_style None);
    ("line-height", StyleAttr_init "normal" normal acc_length_percentage (Some true));
    ("word-spacing", StyleAttr_init "normal" normal acc_length_percentage (Some true));
    ("display", StyleAttr_init "inline" (set2dict ["inline"; "block"; "none"]) acc_noop None);
    ("background-color", StyleAttr_init "transparent" ∅ acc_color None);
    ("width", AALP);
    ("height", AALP);
    ("position",
      StyleAttr_init "static"
        (set2dict ["static"; "relative"; "absolute"; "sticky"; "fixed"]) acc_noop None);
    ("box-sizing",
      StyleAttr_init "content-box" (set2dict ["content-box"; "border-box"]) acc_noop None) ]
  ++ ((λ key, (key, AALP)) <$> (inset_keys ++ pad_keys ++ marg_keys))
  ++ ((λ key, (key, BorderWidthAttr env)) <$> bw_keys)
  ++ ((λ key, (key, StyleAttr_init "currentcolor" ∅ acc_color None)) <$> bc_keys)
  ++ ((λ key, (key, BorderStyleAttr)) <$> bs_keys).

(** [d.get(k)] of a table written as a list of items *)
Fixpoint assoc {A} (k : string) (l : list (string * A)) : option A :=
  match l with
  | [] => None
  | (k', v) :: l' => if String.eqb k' k then Some v else assoc k l'
  end.

(** [name in style_attrs] *)
Definition in_style_attrs (env : Env) (name : string) : bool :=
  match assoc name (style_attrs env) with Some _ => true | None => false end.

(** ** Dictionaries in insertion order *)

Abbreviation dict := (list (string * string)).

(** [d[k] = v] *)
Fixpoint dict_set (k v : string) (d : dict) : dict :=
  match d with
  | [] => [(k, v)]
  | (k', v') :: d' => if String.eqb k' k then (k', v) :: d' else (k', v') :: dict_set k v d'
  end.

(** [d.update(items)] *)
Definition dict_update (d : dict) (items : list (string * string)) : dict :=
  fold_left (λ d kv, dict_set kv.1 kv.2 d) items d.

(** [dict(items)] *)
Definition dict_of_items (items : list (string * string)) : dict :=
  dict_update [] items.

(** [d[k]] *)
Definition dict_getitem (d : dict) (k : string) : py string :=
  match assoc k d with
  | Some v => Return v
  | None => Raise KeyError
  end.

Definition keys {A} (d : list (string * A)) : list string := fst <$> d.

(** ** Shorthand tables *)

Definition global_values : list string := ["inherit"; "initial"; "unset"; "revert"].

Definition dir_fallbacks : list (string * string) :=
  [("right", "top"); ("bottom", "top"); ("left", "right")].

Definition dir_shorthands : list (string * string) :=
  [ ("margin", "margin-{}");
    ("padding", "padding-{}");
    ("border-width", "border-{}-width");
    ("border-color", "border-{}-color");
    ("border-style", "border-{}-style");
    ("inset", "{}") ].

(** The sets of [smart_shorthands] are written in the order of the source;
    the order in which Python iterates a set of strings is not fixed. *)
Definition smart_shorthands : list (string * list string) :=
  ("border", ["border-width"; "border-style"; "border-color"])
  :: ((λ k, ("border-" +:+ k,
             ["border-" +:+ k +:+ "-width"; "border-" +:+ k +:+ "-style";
              "border-" +:+ k +:+ "-color"])) <$> directions).

(** [THECOLORS] after [THECOLORS.update] *)
Definition THECOLORS' (env : Env) : gmap string Color :=
  <["transparent" := mkColor 0 0 0 0]> (<["canvastext" := mkColor 0 0 0 255]> (THECOLORS env)).

(** [value in colors] *)
Definition in_colors (env : Env) (value : string) : bool :=
  String.eqb value "currentcolor" || in_dict value (THECOLORS' env).

(** A value used as a condition. *)
Definition truthy (v : option CompValue) : bool :=
  match v with Some _ => true | None => false end.

Definition guessing (env : Env) (name : string) : option (string → py bool) :=
  if String.eqb name "border-width" then
    Some (λ value, Return (in_dict value (kws BorderStyleAttr)))
  else if String.eqb name "border-color" then
    Some (λ value,
      if in_colors env value then Return true
      else truthy <$> color env value {[ "color" := Str "black" ]})
  else if String.eqb name "border-style" then
    Some (λ value,
      Return (in_dict value (kws (BorderWidthAttr env)) || check_regex env "dimension" value))
  else None.

(** ** Validation and expansion of one property *)

Definition is_valid (env : Env) (name value : string) : py bool :=
  if str_in name global_values then Return true
  else
    match guessing env name with
    | Some validator => validator value
    | None =>
        match assoc name (style_attrs env) with
        | Some attr =>
            if in_dict name (kws attr) then Return true
            else
              (* with suppress(KeyError) *)
              match accept env (acc attr) value ∅ with
              | Return None => Return false
              | Return (Some _) => Return true
              | Raise e => if is_KeyError e then Return true else Raise e
              end
        | None => Return false
        end
    end.

(** [for k in directions[len(_res):]: _res[k] = _res[dir_fallbacks[k]]] *)
Fixpoint dir_fill (ks : list string) (_res : dict) : py dict :=
  match ks with
  | [] => Return _res
  | k :: ks' =>
      match assoc k dir_fallbacks with
      | None => Raise KeyError
      | Some fb => v ← dict_getitem _res fb; dir_fill ks' (dict_set k v _res)
      end
  end.

(** [{k: v for v in arr for k in shorthand if is_valid(k, v)}] *)
Fixpoint smart_keys (env : Env) (v : string) (shorthand : list string) (result : dict)
    : py dict :=
  match shorthand with
  | [] => Return result
  | k :: ks =>
      ok ← is_valid env k v;
      smart_keys env v ks (if ok : bool then dict_set k v result else result)
  end.
Fixpoint smart_result (env : Env) (arr : list string) (shorthand : list string)
    (result : dict) : py dict :=
  match arr with
  | [] => Return result
  | v :: vs => result ← smart_keys env v shorthand result; smart_result env vs shorthand result
  end.

(** [a ^ b] of two collections of strings *)
Definition sym_diff (a b : list string) : list string :=
  List.filter (λ x, negb (str_in x b)) a ++ List.filter (λ x, negb (str_in x a)) b.

Definition is_nil {A} (l : list A) : bool :=
  match l with [] => true | _ => false end.

Definition process_property (env : Env) (key value : string) : py dict :=
  arr ← split value;
  if String.eqb key "all" then
    _ ← py_assert (List.length arr =? 1)%nat None;
    _ ← py_assert (str_in value global_values) None;
    Return ((λ k, (k, value)) <$> keys (style_attrs env))
  else
    match assoc key dir_shorthands with
    | Some fstring =>
        _ ← py_assert (List.length arr <=? List.length directions)%nat
              (Some ("Too many values: " +:+ pretty (List.length arr) +:+ "/"
                     +:+ pretty (List.length directions)));
        let _res := dict_of_items (zip directions arr) in
        _res ← dir_fill (drop (List.length _res) directions) _res;
        Return (dict_of_items ((λ kv, (format1 fstring kv.1, kv.2)) <$> _res))
    | None =>
        match assoc key smart_shorthands with
        | Some shorthand =>
            _ ← py_assert (List.length arr <=? List.length shorthand)%nat
                  (Some ("Too many values: " +:+ pretty (List.length arr) +:+ ", max "
                         +:+ pretty (List.length shorthand)));
            result ← smart_result env arr shorthand [];
            let left := sym_diff shorthand (keys result) in
            _ ← py_assert (is_nil left) (Some ("Invalid key(s): " +:+ str_join ", " left));
            Return result
        | None =>
            _ ← py_assert (List.length arr =? 1)%nat None;
            value ← from_option Return (Raise IndexError) (head arr); (* arr[0] *)
            _ ← py_assert (in_style_attrs env key) (Some "Unknown Property");
            ok ← is_valid env key value;
            _ ← py_assert ok (Some "Invalid Value");
            Return [(key, value)]
        end
    end.

(** ** [process_input] *)

(** Modelled from the spec: [util.log_error] is not in [Style.py]; a report is
    one more line of the log. *)
Definition log_error (log : list string) (line : string) : list string := log ++ [line].

(** Modelled from the spec: [util.group_by_bool] is not in [Style.py]; it
    partitions by a predicate, the items that satisfy it first, each part in
    the order of the input. *)
Definition group_by_bool {A} (l : list A) (key : A → bool) : list A * list A :=
  (List.filter key l, List.filter (λ x, negb (key x)) l).

(** The line that [inner] reports: [e.args[0] or 'Invalid Property'], then the
    declaration. *)
Definition report (arg0 key value : string) : string :=
  let msg := if String.eqb arg0 EmptyString then "Invalid Property" else arg0 in
  "CSS: " +:+ msg +:+ " (" +:+ key +:+ ": " +:+ value +:+ ")".

(** The local function [inner] of [process_input]; [done] is the variable of
    the enclosing call that it updates. *)
Fixpoint inner (env : Env) (d : list (string * string)) (done : dict) (log : list string)
    : py (dict * list string) :=
  match d with
  | [] => Return (done, log)
  | (key, value) :: d' =>
      match process_property env key value with
      | Return items => inner env d' (dict_update done items) log
      | Raise (AssertionError args) =>
          (* except AssertionError as e *)
          match args with
          | None => Raise IndexError (* e.args[0] of an empty tuple *)
          | Some arg0 => inner env d' done (log_error log (report arg0 key value))
          end
      | Raise e => Raise e
      end
  end.

(** The [while True] loop; a unit of fuel is one pass, [None] is out of fuel. *)
Fixpoint process_input_loop (env : Env) (fuel : nat) (done : dict) (log : list string)
    : option (py (dict * list string)) :=
  match fuel with
  | 0 => None
  | S fuel' =>
      let '(_done, todo) := group_by_bool done (λ item, in_style_attrs env item.1) in
      let done := dict_of_items _done in
      if is_nil todo then Some (Return (done, log))
      else
        match inner env todo done log with
        | Return (done, log) => process_input_loop env fuel' done log
        | Raise e => Some (Raise e)
        end
  end.

(** The result is the dictionary [done] together with what was logged. *)
Definition process_input (env : Env) (fuel : nat) (d : list (string * string))
    : option (py (dict * list string)) :=
  match inner env d [] [] with
  | Return (done, log) => process_input_loop env fuel done log
  | Raise e => Some (Raise e)
  end.

(** ** [join_styles] *)

Abbreviation Value := (string * bool)%type.
Abbreviation Style := (gmap string Value).

(** [style1 | style2] and the merge of two dictionary displays let the right
    operand win, the union of [gmap] the left one. The keys that are looked up
    come from the dictionaries themselves, so that the lookups [d[k]] of the
    source cannot fail. *)
Definition join_styles (style1 style2 : Style) : Style :=
  let fused : Style := style2 ∪ style1 in
  let one := (dom style1 ∖ dom style2) ∪ (dom style2 ∖ dom style1) in
  let both := dom style1 ∩ dom style2 in
  (set_to_map (λ k,
      (k, if (style2 !!! k).2 && negb (style1 !!! k).2 then style2 !!! k else style1 !!! k))
     both : Style)
  ∪ (set_to_map (λ k, (k, fused !!! k)) one : Style).

(** ** Important declarations *)

Definition IMPORTANT : string := "!important".

(** [s.endswith(suffix)] *)
Definition str_endswith (s suffix : string) : bool :=
  let n := String.length s in
  let m := String.length suffix in
  (m <=? n)%nat && String.eqb (substring (n - m) m s) suffix.

(** [s[:-k]] for a positive [k] *)
Definition str_drop_end (k : nat) (s : string) : string :=
  substring 0 (String.length s - k) s.

Definition parse_important (s : string) : Value :=
  if str_endswith s IMPORTANT then (str_drop_end (String.length IMPORTANT) s, true)
  else (s, false).

Definition is_imp (t : Value) : bool := t.2.

Abbreviation Property := (string * Value)%type.

(** [remove_important] of a list of properties *)
Definition remove_important (style : list Property) : list (string * string) :=
  (λ kv, (kv.1, kv.2.1)) <$> style.

(** [add_important]: the comprehension [{k: (v, imp) for k, v in style.items()}] *)
Definition add_important (style : dict) (imp : bool) : Style :=
  foldl (λ m kv, <[kv.1 := (kv.2, imp)]> m) ∅ style.

(** [process] of a list of properties. The operand on the left of [|] is
    evaluated first, and the one on the right wins. *)
Definition process (env : Env) (fuel : nat) (d : list Property)
    : option (py (Style * list string)) :=
  let '(imp, not_imp) := group_by_bool d (λ t, is_imp t.2) in
  match process_input env fuel (remove_important not_imp) with
  | None => None
  | Some (Raise e) => Some (Raise e)
  | Some (Return (done1, log1)) =>
      match process_input env fuel (remove_important imp) with
      | None => None
      | Some (Raise e) => Some (Raise e)
      | Some (Return (done2, log2)) =>
          Some (Return (add_important done2 true ∪ add_important done1 false, log1 ++ log2))
      end
  end.

(** ** Default styles *)

(** [{k: "inherit" if v.inherits else v.initial for k, v in style_attrs.items()}] *)
Definition abs_default_style (env : Env) : dict :=
  dict_of_items
    ((λ kv, (kv.1, if inherits kv.2 then "inherit" else initial kv.2)) <$> style_attrs env).

(** [element_styles[tag]] of the [defaultdict]: a tag without an entry has
    the empty dictionary. *)
Definition element_styles (env : Env) (tag : string) : dict :=
  if String.eqb tag "html" then
    dict_set "display" "block"
      (dict_of_items
         ((λ kv, (kv.1, initial kv.2)) <$> List.filter (λ kv, inherits kv.2) (style_attrs env)))
  else if String.eqb tag "head" then [("display", "none")]
  else [].

(** Modelled from the spec: [own_types.ReadChain] is not in [Style.py]; it
    is a read-through chain of two maps, and a lookup checks the first,
    then the second. *)
Record ReadChain : Type := mkReadChain { level1 : dict; level2 : dict }.

Definition ReadChain_getitem (c : ReadChain) (k : string) : py string :=
  match assoc k (level1 c) with
  | Some v => Return v
  | None => dict_getitem (level2 c) k
  end.

Definition get_style (env : Env) (tag : string) : ReadChain :=
  mkReadChain (element_styles env tag) (abs_default_style env).

(** ** Source sheets *)

(** [Media]: the size of the window. *)
Abbreviation Media := (Q * Q)%type.
Abbreviation StyleRule := (string * Style)%type.

(** A rule is a style rule (a tuple), a [MediaRule] with its sheet, or
    another at-rule. A [SourceSheet] is the list of its rules together with
    its attribute [_last_media_rules]. *)
Inductive Rule : Type :=
  | RStyle (rule : StyleRule)
  | RMedia (media : list string) (rules : SourceSheet)
  | RAt
with SourceSheet : Type :=
  | Sheet (rules : list Rule) (_last_media_rules : option (Media * list StyleRule)).

Definition sheet_rules (self : SourceSheet) : list Rule :=
  match self with Sheet rules _ => rules end.

(** [MediaRule.matches] *)
Definition MediaRule_matches (media : list string) (current : Media) : bool := true.

Definition get_media (env : Env) : Media := (g_W env, g_H env).

(** [lastmedia == current_media] *)
Definition Media_eqb (a b : Media) : bool := Qeq_bool a.1 b.1 && Qeq_bool a.2 b.2.

Section RulesLoop.
Context (all_rules_of : SourceSheet → list StyleRule * SourceSheet) (current_media : Media).

(** The loop [for rule in self] of [all_rules]: what is added to [rv], and
    the rules with the sheets of their media rules as the calls leave
    them. *)
Fixpoint rules_loop (rules : list Rule) : list StyleRule * list Rule :=
  match rules with
  | [] => ([], [])
  | rule :: rest =>
      let '(rv1, rule') :=
        match rule with
        | RMedia media sub =>
            if MediaRule_matches media current_media then
              let '(l, sub') := all_rules_of sub in (l, RMedia media sub')
            else ([], rule)
        | RStyle r => ([r], rule)
        | RAt => ([], rule)
        end in
      let '(rv2, rest') := rules_loop rest in
      (rv1 ++ rv2, rule' :: rest')
  end.

End RulesLoop.

(** The property [all_rules]: the list it returns and the sheet after the
    call. *)
Fixpoint all_rules (env : Env) (self : SourceSheet) : list StyleRule * SourceSheet :=
  match self with
  | Sheet rules last =>
      let current_media := get_media env in
      let hit :=
        match last with
        | Some (lastmedia, lastrules) =>
            if Media_eqb lastmedia current_media then Some lastrules else None
        | None => None
        end in
      match hit with
      | Some lastrules => (lastrules, self)
      | None =>
          let '(rv, rules') := rules_loop (all_rules env) current_media rules in
          (rv, Sheet rules' (Some (current_media, rv)))
      end
  end.

(** [SourceSheet.__add__] and [SourceSheet.join]: a new sheet. *)
Definition SourceSheet_add (self other : SourceSheet) : SourceSheet :=
  Sheet (sheet_rules self ++ sheet_rules other) None.
Definition SourceSheet_join (sheets : list SourceSheet) : SourceSheet :=
  Sheet (concat (sheet_rules <$> sheets)) None.

(** ** A sample configuration

    One instance of [Env], with small tables in the shape the specification
    gives them; the concrete inputs of this development are evaluated in it. *)

Module Sample.

Definition is_word (c : ascii) : bool :=
  let n := nat_of_ascii c in
  (((48 <=? n) && (n <=? 57)) || ((65 <=? n) && (n <=? 90)) || (n =? 95)
   || ((97 <=? n) && (n <=? 122)))%nat.

Fixpoint all_chars (p : ascii → bool) (s : string) : bool :=
  match s with
  | String c s' => p c && all_chars p s'
  | EmptyString => true
  end.

(** A decimal literal at the head of [s]: sign, digits, fraction. *)
Definition dec_prefix (s : string) : option (string * string * string * string) :=
  let '(sign, s1) :=
    match s with
    | String c s' =>
        if Ascii.eqb c "+" || Ascii.eqb c "-" then (String c EmptyString, s')
        else (EmptyString, s)
    | EmptyString => (EmptyString, s)
    end in
  let '(ip, s2) := take_digits s1 in
  let '(fp, s3) :=
    match s2 with
    | String "." s' =>
        let '(fp, r) := take_digits s' in
        if String.eqb fp EmptyString then (EmptyString, s2) else (fp, r)
    | _ => (EmptyString, s2)
    end in
  if String.eqb ip EmptyString && String.eqb fp EmptyString then None
  else Some (sign, ip, fp, s3).

Definition literal (sign ip fp : string) : string :=
  sign +:+ ip +:+ (if String.eqb fp EmptyString then EmptyString else "." +:+ fp).

Definition fullmatch (s : string) : option (string * string) :=
  match dec_prefix s with
  | Some (sign, ip, fp, unit) =>
      if all_chars is_word unit || String.eqb unit "%"
      then Some (literal sign ip fp, unit) else None
  | None => None
  end.

Definition float_of_str (s : string) : option Q :=
  match dec_prefix (str_strip s) with
  | Some (sign, ip, fp, EmptyString) =>
      let m := int_of_digits 0 (ip +:+ fp) in
      let x := Qred (inject_Z m / inject_Z (10 ^ Z.of_nat (String.length fp))) in
      Some (if String.eqb sign "-" then Qred (- x) else x)
  | _ => None
  end.

Definition regex_fullmatch (name to_check : string) : bool :=
  String.eqb name "dimension"
  && match dec_prefix (str_strip to_check) with
     | Some (_, _, _, unit) => all_chars is_word unit
     | None => false
     end.

Definition colordict : gmap string Color :=
  list_to_map
    [ ("black", mkColor 0 0 0 255); ("white", mkColor 255 255 255 255);
      ("red", mkColor 255 0 0 255); ("green", mkColor 0 255 0 255);
      ("blue", mkColor 0 0 255 255) ].

(** The configuration with a given root. *)
Definition with_root (root : Root) : Env :=
  {| abs_length_units :=
       list_to_map
         [ ("px", 1%Q); ("in", 96%Q); ("pt", 4 # 3); ("pc", 16%Q);
           ("cm", 4800 # 127); ("mm", 480 # 127) ];
     abs_font_size :=
       list_to_map
         [ ("xx-small", -3); ("x-small", -2); ("small", -1); ("medium", 0);
           ("large", 1); ("x-large", 2); ("xx-large", 3) ]%Z;
     rel_font_size := list_to_map [ ("larger", 1); ("smaller", -1) ]%Z;
     abs_font_weight := list_to_map [ ("normal", Number 400); ("bold", Number 700) ];
     abs_border_width :=
       list_to_map [ ("thin", Number 1); ("medium", Number 3); ("thick", Number 5) ];
     g_W := 900;
     g_H := 600;
     g_default_font_size := 16;
     g_root := root;
     THECOLORS := colordict;
     Color_of_str := λ s,
       (<["transparent" := mkColor 0 0 0 0]>
          (<["canvastext" := mkColor 0 0 0 255]> colordict)) !! s;
     FontStyle := λ args,
       match args with
       | [style] =>
           if str_in style ["normal"; "italic"; "oblique"] then Return (FontStyleV args)
           else Raise (AssertionError None)
       | [style; angle] =>
           if String.eqb style "oblique" then Return (FontStyleV args)
           else Raise (AssertionError None)
       | _ => Raise TypeError
       end;
     check_regex := regex_fullmatch;
     split_units_pattern_fullmatch := fullmatch;
     float := float_of_str |}.

Definition env : Env := with_root (RootStyle {[ "font-size" := Number 16 ]}).


End Sample.

(** ** Notions of the statements *)

Definition relative_units : list string := ["em"; "rem"; "vw"; "vh"; "vmin"; "vmax"].

(** The units that [_length] converts. *)
Definition known_unit (env : Env) (unit : string) : bool :=
  in_dict unit (abs_length_units env) || str_in unit relative_units.

(** The expansion as the specification words it: the tokens are top, right,
    bottom and left in that order, and a missing one is taken from its
    fallback, right from top, bottom from top, left from right. *)
Definition side_values (top : string) (arr : list string) : list (string * string) :=
  let right := default top (arr !! 1%nat) in
  let bottom := default top (arr !! 2%nat) in
  let left := default right (arr !! 3%nat) in
  [("top", top); ("right", right); ("bottom", bottom); ("left", left)].

(** What the tables of the configuration say about the three tokens of
    [border: 2px solid red]: [2px] is a dimension, [red] is a colour, and
    none of the three is anything else. *)
Record border_tokens (env : Env) : Prop := {
  dimension_2px : check_regex env "dimension" "2px" = true;
  dimension_solid : check_regex env "dimension" "solid" = false;
  dimension_red : check_regex env "dimension" "red" = false;
  width_solid : abs_border_width env !! "solid" = None;
  width_red : abs_border_width env !! "red" = None;
  colors_red : is_Some (THECOLORS env !! "red");
  colors_2px : THECOLORS env !! "2px" = None;
  colors_solid : THECOLORS env !! "solid" = None;
  Color_2px : Color_of_str env "2px" = None;
  Color_solid : Color_of_str env "solid" = None;
}.

(** The keys of [style_attrs]; they do not depend on the configuration. *)
Definition canonical_names : list string :=
  Eval vm_compute in keys (style_attrs Sample.env).

Definition is_some {A} (o : option A) : bool :=
  match o with Some _ => true | None => false end.

(** A canonical name is neither [all], nor a shorthand, nor a global value,
    nor a key of [guessing]. *)
Definition plain_name (env : Env) (name : string) : bool :=
  negb (String.eqb name "all")
  && negb (is_some (assoc name dir_shorthands))
  && negb (is_some (assoc name smart_shorthands))
  && negb (str_in name global_values)
  && negb (is_some (guessing env name)).

(** A key that the loop still has to expand: a key of [dir_shorthands]. *)
Definition canonical_or_dir (k : string) : bool :=
  str_in k canonical_names || is_some (assoc k dir_shorthands).

(** A single token: a string without whitespace in which no parenthesis is
    closed that was not opened; [brackets] counts the open ones. *)
Fixpoint token_from (brackets : nat) (s : string) : bool :=
  match s with
  | EmptyString => true
  | String c s' =>
      negb (isspace c)
      && (if Ascii.eqb c "(" then token_from (S brackets) s'
          else if Ascii.eqb c ")" then
            match brackets with
            | 0 => false
            | S b => token_from b s'
            end
          else token_from brackets s')
  end.

Definition is_token (s : string) : bool := token_from 0 s.

(** The characters that [split] keeps. *)
Fixpoint count_kept (s : string) : nat :=
  match s with
  | EmptyString => 0
  | String c s' => (if isspace c then 0 else 1) + count_kept s'
  end.

Definition total_length (l : list string) : nat := sum_list_with String.length l.

(** A declaration of an already canonical set, as the specification has
    it for a plain property: the name is a registered property, the value is
    a single token, and the value validates, as a registered keyword of the
    property or through its acceptor on the empty parent style. That is
    [StyleAttr.convert] giving a value. *)
Definition canonical_declaration (env : Env) (item : string * string) : Prop :=
  ∃ attr : StyleAttr,
    assoc item.1 (style_attrs env) = Some attr
    ∧ is_token item.2 = true
    ∧ ∃ v : CompValue, convert env attr item.2 ∅ = Return (Some v).

(** A declaration that passes the three assertions of the plain branch of
    [process_property]: a registered property with a value that is a single
    token and that [is_valid] accepts. *)
Definition accepted_declaration (env : Env) (item : string * string) : Prop :=
  in_style_attrs env item.1 = true
  ∧ is_token item.2 = true
  ∧ is_valid env item.1 item.2 = Return true.

(** ** Notions of the further statements *)

(** A string without its whitespace. *)
Fixpoint remove_whitespace (s : string) : string :=
  match s with
  | EmptyString => EmptyString
  | String c s' => if isspace c then remove_whitespace s' else String c (remove_whitespace s')
  end.

(** No parenthesis of [s] is closed that was not opened, [brackets] being
    open at its start. *)
Fixpoint closes_ok (brackets : nat) (s : string) : bool :=
  match s with
  | EmptyString => true
  | String c s' =>
      if Ascii.eqb c "(" then closes_ok (S brackets) s'
      else if Ascii.eqb c ")" then
        match brackets with
        | 0 => false
        | S b => closes_ok b s'
        end
      else closes_ok brackets s'
  end.

(** The dictionary of a result of [process_input], without the log. *)
Definition result_dict (r : option (py (dict * list string))) : option (py dict) :=
  (λ p : py (dict * list string), fst <$> p) <$> r.

(** [is_valid] returns a true value. *)
Definition accepts (env : Env) (k v : string) : bool :=
  match is_valid env k v with Return true => true | _ => false end.

(** The last of the tokens [arr] that [is_valid] accepts for [k], [start]
    when there is none. *)
Definition last_accepted (env : Env) (k : string) (arr : list string)
    (start : option string) : option string :=
  fold_left (λ found v, if accepts env k v then Some v else found) arr start.

(** The style rules of a sheet, those of its media rules in their place. *)
Section FlattenLoop.
Context (flatten_of : SourceSheet → list StyleRule).

Fixpoint flatten_rules (rules : list Rule) : list StyleRule :=
  match rules with
  | [] => []
  | rule :: rest =>
      match rule with
      | RStyle r => [r]
      | RMedia _ sub => flatten_of sub
      | RAt => []
      end ++ flatten_rules rest
  end.

End FlattenLoop.

Fixpoint flatten (self : SourceSheet) : list StyleRule :=
  match self with Sheet rules _ => flatten_rules flatten rules end.

(** A sheet as its constructor and [all_rules] leave it: what it remembers,
    and what the sheets of its media rules remember, are the style rules
    of the sheet. *)
Section CoherentLoop.
Context (coherent_of : SourceSheet → Prop).

Fixpoint coherent_rules (rules : list Rule) : Prop :=
  match rules with
  | [] => True
  | rule :: rest =>
      match rule with
      | RMedia _ sub => coherent_of sub
      | _ => True
      end ∧ coherent_rules rest
  end.

End CoherentLoop.

Fixpoint coherent (self : SourceSheet) : Prop :=
  match self with
  | Sheet rules last =>
      match last with
      | Some (_, lastrules) => lastrules = flatten_rules flatten rules
      | None => True
      end ∧ coherent_rules coherent rules
  end.

(** Induction on a sheet, through the sheets of its media rules. *)
Section SheetInduction.
Context (P : SourceSheet → Prop).
Hypothesis step :
  ∀ rules last,
    Forall (λ rule, match rule with RMedia _ sub => P sub | _ => True end) rules →
    P (Sheet rules last).

Fixpoint sheet_induction (self : SourceSheet) : P self :=
  match self with
  | Sheet rules last =>
      step rules last
        ((fix go (rules : list Rule) :
            Forall (λ rule, match rule with RMedia _ sub => P sub | _ => True end) rules :=
            match rules
              return Forall (λ rule, match rule with RMedia _ sub => P sub | _ => True end)
                       rules
            with
            | [] => @List.Forall_nil _ _
            | rule :: rest =>
                @List.Forall_cons _ _ rule rest
                  (match rule return match rule with RMedia _ sub => P sub | _ => True end
                   with
                   | RMedia _ sub => sheet_induction sub
                   | _ => I
                   end)
                  (go rest)
            end) rules)
  end.

End SheetInduction.

(** * Properties *)

(** ** The cascade merge *)

Lemma lookup_set_to_map_key {A} (g : string → A) (X : gset string) (k : string) :
  (set_to_map (λ k, (k, g k)) X : gmap string A) !! k
  = if decide (k ∈ X) then Some (g k) else None.
Proof.
  destruct (decide (k ∈ X)) as [Hk|Hk].
  - apply lookup_set_to_map; [naive_solver|]. eauto.
  - apply eq_None_not_Some. intros [x Hx].
    apply lookup_set_to_map in Hx; [|naive_solver].
    destruct Hx as (y & Hy & Heq). by simplify_eq.
Qed.

Lemma join_styles_lookup (style1 style2 : Style) (k : string) :
  join_styles style1 style2 !! k =
    match style1 !! k, style2 !! k with
    | Some v1, Some v2 => Some (if v2.2 && negb v1.2 then v2 else v1)
    | Some v1, None => Some v1
    | None, Some v2 => Some v2
    | None, None => None
    end.
Proof.
  unfold join_styles. rewrite lookup_union, !lookup_set_to_map_key.
  destruct (style1 !! k) as [v1|] eqn:H1, (style2 !! k) as [v2|] eqn:H2.
  - rewrite decide_True by (rewrite elem_of_intersection, !elem_of_dom; eauto).
    rewrite decide_False.
    2:{ rewrite elem_of_union, !elem_of_difference, !elem_of_dom, H1, H2.
        intros [[_ []]|[_ []]]; eauto. }
    by rewrite (lookup_total_correct _ _ _ H1), (lookup_total_correct _ _ _ H2).
  - rewrite decide_False.
    2:{ rewrite elem_of_intersection, !elem_of_dom, H2. intros [_ [? ?]]. done. }
    rewrite decide_True.
    2:{ rewrite elem_of_union, !elem_of_difference, !elem_of_dom, H1, H2.
        left. split; [eauto|]. intros [? ?]. done. }
    cbn. f_equal. apply lookup_total_correct. by rewrite lookup_union_r.
  - rewrite decide_False.
    2:{ rewrite elem_of_intersection, !elem_of_dom, H1. intros [[? ?] _]. done. }
    rewrite decide_True.
    2:{ rewrite elem_of_union, !elem_of_difference, !elem_of_dom, H1, H2.
        right. split; [eauto|]. intros [? ?]. done. }
    cbn. f_equal. apply lookup_total_correct. by rewrite lookup_union_l.
  - rewrite decide_False.
    2:{ rewrite elem_of_intersection, !elem_of_dom, H1. intros [[? ?] _]. done. }
    rewrite decide_False; [done|].
    rewrite elem_of_union, !elem_of_difference, !elem_of_dom, H1, H2.
    intros [[[? ?] _]|[[? ?] _]]; done.
Qed.

(** C4. Cascade merge rule. For every two styles and every key,
    [join_styles] takes the declaration of [style2] for a key of both only
    when that one is important and the one of [style1] is not, and keeps the
    declaration of [style1] otherwise; a key of exactly one of the two styles
    keeps its declaration, and a key of neither is not in the result. Merging
    [color: red] with [color: blue !important] gives blue, and merging
    [color: red !important] with [color: blue] gives red. *)
Theorem join_styles_cascade :
  (∀ (style1 style2 : Style) (k : string),
     join_styles style1 style2 !! k =
       match style1 !! k, style2 !! k with
       | Some v1, Some v2 => Some (if v2.2 && negb v1.2 then v2 else v1)
       | Some v1, None => Some v1
       | None, Some v2 => Some v2
       | None, None => None
       end)
  ∧ join_styles {[ "color" := ("red", false) ]} {[ "color" := ("blue", true) ]}
    = {[ "color" := ("blue", true) ]}
  ∧ join_styles {[ "color" := ("red", true) ]} {[ "color" := ("blue", false) ]}
    = {[ "color" := ("red", true) ]}.
Proof.
  split; [exact join_styles_lookup|].
  split; apply map_eq; intros k; rewrite join_styles_lookup;
    destruct (decide (k = "color")) as [->|Hk];
    rewrite ?lookup_singleton_eq, ?lookup_singleton_ne by done; done.
Qed.

(** ** Comparisons of numbers *)

Lemma Qltb_lt (x y : Q) : (x < y)%Q → Qltb x y = true.
Proof.
  intros H. unfold Qltb. destruct (Qle_bool y x) eqn:E; [|done].
  apply Qle_bool_iff in E. by apply Qle_not_lt in E.
Qed.

Lemma Qltb_ge (x y : Q) : (y <= x)%Q → Qltb x y = false.
Proof. intros H. unfold Qltb. apply Qle_bool_iff in H. by rewrite H. Qed.

Lemma Qle_bool_le (x y : Q) : (x <= y)%Q → Qle_bool x y = true.
Proof. apply Qle_bool_iff. Qed.

Lemma Qle_bool_gt (x y : Q) : (y < x)%Q → Qle_bool x y = false.
Proof.
  intros H. destruct (Qle_bool x y) eqn:E; [|done].
  apply Qle_bool_iff in E. by apply Qle_not_lt in E.
Qed.

Lemma eqb_ne (x y : string) : x ≠ y → String.eqb x y = false.
Proof. apply String.eqb_neq. Qed.

(** ** [font_weight] *)

Section FontWeight.
Context (env : Env) (p_style : StyleComputed) (p : Q).
Hypothesis parent : p_style !! "font-weight" = Some (Number p).

Ltac run := unfold font_weight, getitem; rewrite parent; cbn.

Lemma lighter_below_100 :
  (p < 100)%Q → font_weight env "lighter" p_style = Return (Some (Number p)).
Proof. intros. run. by rewrite Qltb_lt. Qed.

Lemma lighter_below_550 :
  (100 <= p)%Q → (p < 550)%Q →
  font_weight env "lighter" p_style = Return (Some (Number 100)).
Proof. intros. run. by rewrite Qltb_ge, Qltb_lt. Qed.

Lemma lighter_below_700 :
  (550 <= p)%Q → (p < 700)%Q →
  font_weight env "lighter" p_style = Return (Some (Number 400)).
Proof.
  intros. run. rewrite Qltb_ge, Qltb_ge, Qltb_lt; try done.
  by apply Qle_trans with 550%Q.
Qed.

Lemma lighter_upto_1000 :
  (700 <= p)%Q → (p <= 1000)%Q →
  font_weight env "lighter" p_style = Return (Some (Number 700)).
Proof.
  intros. run. rewrite Qltb_ge, Qltb_ge, Qltb_ge, Qle_bool_le; try done.
  - by apply Qle_trans with 700%Q.
  - by apply Qle_trans with 700%Q.
Qed.

Lemma lighter_above_1000 :
  (1000 < p)%Q → font_weight env "lighter" p_style = Raise ValueError.
Proof.
  intros H. apply Qlt_le_weak in H as H'.
  run. rewrite Qltb_ge, Qltb_ge, Qltb_ge, Qle_bool_gt; try done.
  all: eapply Qle_trans; [|exact H']; done.
Qed.

Lemma bolder_below_350 :
  (p < 350)%Q → font_weight env "bolder" p_style = Return (Some (Number 400)).
Proof. intros. run. by rewrite Qltb_lt. Qed.

Lemma bolder_below_550 :
  (350 <= p)%Q → (p < 550)%Q →
  font_weight env "bolder" p_style = Return (Some (Number 700)).
Proof. intros. run. by rewrite Qltb_ge, Qltb_lt. Qed.

Lemma bolder_below_900 :
  (550 <= p)%Q → (p < 900)%Q →
  font_weight env "bolder" p_style = Return (Some (Number 900)).
Proof.
  intros. run. rewrite Qltb_ge, Qltb_ge, Qltb_lt; try done.
  by apply Qle_trans with 550%Q.
Qed.

Lemma bolder_from_900 :
  (900 <= p)%Q → font_weight env "bolder" p_style = Return (Some (Number p)).
Proof.
  intros. run. rewrite Qltb_ge, Qltb_ge, Qltb_ge; try done.
  all: eapply Qle_trans; [|eassumption]; done.
Qed.

Lemma literal_in_range (value : string) (n : Q) :
  value ≠ "lighter" → value ≠ "bolder" → float env value = Some n →
  (0 < n)%Q → (n <= 1000)%Q →
  font_weight env value p_style = Return (Some (Number n)).
Proof.
  intros Hl Hb Hf ? ?. run. rewrite (eqb_ne _ _ Hl), (eqb_ne _ _ Hb), Hf.
  by rewrite Qltb_lt, Qle_bool_le.
Qed.

Lemma literal_out_of_range (value : string) (n : Q) :
  value ≠ "lighter" → value ≠ "bolder" → float env value = Some n →
  ¬ ((0 < n)%Q ∧ (n <= 1000)%Q) →
  font_weight env value p_style = Return None.
Proof.
  intros Hl Hb Hf Hn. run. rewrite (eqb_ne _ _ Hl), (eqb_ne _ _ Hb), Hf.
  destruct (Qlt_le_dec 0 n) as [H0|H0].
  - rewrite Qltb_lt by done. rewrite Qle_bool_gt; [done|].
    apply Qnot_le_lt. intros ?. by apply Hn.
  - by rewrite Qltb_ge.
Qed.

Lemma literal_not_a_number (value : string) :
  value ≠ "lighter" → value ≠ "bolder" → float env value = None →
  font_weight env value p_style = Return None.
Proof. intros Hl Hb Hf. run. by rewrite (eqb_ne _ _ Hl), (eqb_ne _ _ Hb), Hf. Qed.

End FontWeight.

(** C5. [font_weight] has the relative-weight thresholds of the
    specification. With parent weight [p]: [lighter] returns [p] itself below
    100, then 100 below 550, 400 below 700, 700 up to 1000 included, and is
    invalid (the [ValueError] is raised) above 1000; [bolder] returns 400 below
    350, 700 below 550, 900 below 900 and [p] itself from 900 on; any other
    value is read as a number [n] and is returned as it is exactly when
    [0 < n <= 1000], the result being [None] otherwise and when the value is
    not a number. So lighter at 600 is 400, lighter at 750 is 700, bolder at
    300 is 400 and bolder at 950 is 950. *)
Theorem font_weight_thresholds (env : Env) :
  (∀ (p_style : StyleComputed) (p : Q),
     p_style !! "font-weight" = Some (Number p) →
     ((p < 100)%Q → font_weight env "lighter" p_style = Return (Some (Number p)))
     ∧ ((100 <= p)%Q → (p < 550)%Q →
        font_weight env "lighter" p_style = Return (Some (Number 100)))
     ∧ ((550 <= p)%Q → (p < 700)%Q →
        font_weight env "lighter" p_style = Return (Some (Number 400)))
     ∧ ((700 <= p)%Q → (p <= 1000)%Q →
        font_weight env "lighter" p_style = Return (Some (Number 700)))
     ∧ ((1000 < p)%Q → font_weight env "lighter" p_style = Raise ValueError)
     ∧ ((p < 350)%Q → font_weight env "bolder" p_style = Return (Some (Number 400)))
     ∧ ((350 <= p)%Q → (p < 550)%Q →
        font_weight env "bolder" p_style = Return (Some (Number 700)))
     ∧ ((550 <= p)%Q → (p < 900)%Q →
        font_weight env "bolder" p_style = Return (Some (Number 900)))
     ∧ ((900 <= p)%Q → font_weight env "bolder" p_style = Return (Some (Number p)))
     ∧ (∀ (value : string) (n : Q),
          value ≠ "lighter" → value ≠ "bolder" → float env value = Some n →
          ((0 < n)%Q → (n <= 1000)%Q →
           font_weight env value p_style = Return (Some (Number n)))
          ∧ (¬ ((0 < n)%Q ∧ (n <= 1000)%Q) →
             font_weight env value p_style = Return None))
     ∧ (∀ value : string,
          value ≠ "lighter" → value ≠ "bolder" → float env value = None →
          font_weight env value p_style = Return None))
  ∧ font_weight env "lighter" {[ "font-weight" := Number 600 ]} = Return (Some (Number 400))
  ∧ font_weight env "lighter" {[ "font-weight" := Number 750 ]} = Return (Some (Number 700))
  ∧ font_weight env "bolder" {[ "font-weight" := Number 300 ]} = Return (Some (Number 400))
  ∧ font_weight env "bolder" {[ "font-weight" := Number 950 ]} = Return (Some (Number 950)).
Proof.
  split.
  - intros p_style p parent.
    repeat match goal with |- _ ∧ _ => split end; try intros value n ? ? ?;
    repeat match goal with |- _ ∧ _ => split end.
    + by apply (lighter_below_100 _ _ p).
    + by apply (lighter_below_550 _ _ p).
    + by apply (lighter_below_700 _ _ p).
    + by apply (lighter_upto_1000 _ _ p).
    + by apply (lighter_above_1000 _ _ p).
    + by apply (bolder_below_350 _ _ p).
    + by apply (bolder_below_550 _ _ p).
    + by apply (bolder_below_900 _ _ p).
    + by apply (bolder_from_900 _ _ p).
    + by apply (literal_in_range _ _ p).
    + by apply (literal_out_of_range _ _ p).
    + by apply (literal_not_a_number _ _ p).
  - repeat match goal with |- _ ∧ _ => split end.
    + apply (lighter_below_700 _ _ 600); [apply lookup_singleton_eq | done | done].
    + apply (lighter_upto_1000 _ _ 750); [apply lookup_singleton_eq | done | done].
    + apply (bolder_below_350 _ _ 300); [apply lookup_singleton_eq | done].
    + apply (bolder_from_900 _ _ 950); [apply lookup_singleton_eq | done].
Qed.

Lemma font_weight_thresholds_witness :
  font_weight Sample.env "lighter" {[ "font-weight" := Number 99 ]}
  = Return (Some (Number 99))
  ∧ font_weight Sample.env "lighter" {[ "font-weight" := Number 1001 ]} = Raise ValueError
  ∧ font_weight Sample.env "1000" {[ "font-weight" := Number 400 ]}
    = Return (Some (Number 1000))
  ∧ font_weight Sample.env "1001" {[ "font-weight" := Number 400 ]} = Return None.
Proof.
  pose proof (font_weight_thresholds Sample.env) as [H _].
  repeat match goal with |- _ ∧ _ => split end.
  - destruct (H {[ "font-weight" := Number 99 ]} 99%Q (lookup_singleton_eq _ _))
      as (L & _).
    apply L. reflexivity.
  - destruct (H {[ "font-weight" := Number 1001 ]} 1001%Q (lookup_singleton_eq _ _))
      as (_ & _ & _ & _ & L & _).
    apply L. reflexivity.
  - destruct (H {[ "font-weight" := Number 400 ]} 400%Q (lookup_singleton_eq _ _))
      as (_ & _ & _ & _ & _ & _ & _ & _ & _ & L & _).
    destruct (L "1000" 1000%Q) as [L1 _]; [discriminate | discriminate | reflexivity |].
    apply L1; [reflexivity | discriminate].
  - destruct (H {[ "font-weight" := Number 400 ]} 400%Q (lookup_singleton_eq _ _))
      as (_ & _ & _ & _ & _ & _ & _ & _ & _ & L & _).
    destruct (L "1001" 1001%Q) as [_ L2]; [discriminate | discriminate | reflexivity |].
    apply L2. intros [_ Hle]. apply Hle. reflexivity.
Defined.

(** ** Lengths *)

Section Lengths.
Context (env : Env).

Lemma _length_zero (num : Q) (unit : string) (p_style : StyleComputed) :
  (num == 0)%Q → _length env (num, unit) p_style = Return (Number 0).
Proof. intros H. unfold _length. apply Qeq_bool_iff in H. by rewrite H. Qed.

Lemma _length_unknown_unit (num : Q) (unit : string) (p_style : StyleComputed) :
  ¬ (num == 0)%Q → known_unit env unit = false →
  _length env (num, unit) p_style = Raise ValueError.
Proof.
  intros Hnum Hunit. unfold _length.
  destruct (Qeq_bool num 0) eqn:E; [by apply Qeq_bool_iff in E|].
  apply orb_false_iff in Hunit as [Habs Hrel].
  unfold in_dict in Habs. destruct (abs_length_units env !! unit); [done|].
  cbn in Hrel.
  repeat (apply orb_false_iff in Hrel as [-> Hrel]). done.
Qed.

Lemma length_percentage_dimension (value : string) (num : Q) (unit : string)
    (p_style : StyleComputed) (mult : option CompValue) :
  split_units env value = Return (num, unit) → unit ≠ "%" →
  length_percentage env value p_style mult
  = match _length env (num, unit) p_style with
    | Return v => Return (Some v)
    | Raise e => if is_AttributeError e then Return None else Raise e
    end.
Proof.
  intros Hsplit Hunit. unfold length_percentage. rewrite Hsplit. cbn.
  by rewrite (eqb_ne _ _ Hunit).
Qed.

Lemma length_dimension (value : string) (num : Q) (unit : string)
    (p_style : StyleComputed) :
  split_units env value = Return (num, unit) →
  length env value p_style
  = match _length env (num, unit) p_style with
    | Return v => Return (Some v)
    | Raise e => if is_AttributeError e then Return None else Raise e
    end.
Proof. intros Hsplit. unfold length. by rewrite Hsplit. Qed.

Lemma split_units_fullmatch (value num unit : string) (x : Q) :
  split_units_pattern_fullmatch env (str_strip value) = Some (num, unit) →
  float env num = Some x →
  split_units env value = Return (x, unit).
Proof. intros Hm Hf. unfold split_units. by rewrite Hm, Hf. Qed.

End Lengths.

(** C7. Literal-zero short-circuit. A token that [split_units] splits into
    a number equal to 0 and a unit other than the percent sign converts to 0
    whatever the unit is, known, unknown or empty, and whatever the parent
    style is; with a number other than 0 and a unit that [_length] does not
    know the token is invalid: no value is returned, the [ValueError] of
    [_length] is raised. [length_percentage] of [0] and of [0unknownunit] is 0
    for every parent style, given that the pattern of [split_units] splits
    these two tokens into the literal [0] and the rest and that the literal
    [0] denotes the number 0. *)
Theorem length_percentage_zero (env : Env) :
  (∀ (value : string) (num : Q) (unit : string) (p_style : StyleComputed)
     (mult : option CompValue),
     split_units env value = Return (num, unit) → unit ≠ "%" → (num == 0)%Q →
     length_percentage env value p_style mult = Return (Some (Number 0)))
  ∧ (∀ (value : string) (num : Q) (unit : string) (p_style : StyleComputed)
       (mult : option CompValue),
       split_units env value = Return (num, unit) → unit ≠ "%" → ¬ (num == 0)%Q →
       known_unit env unit = false →
       length_percentage env value p_style mult = Raise ValueError)
  ∧ (split_units_pattern_fullmatch env "0" = Some ("0", EmptyString) →
     split_units_pattern_fullmatch env "0unknownunit" = Some ("0", "unknownunit") →
     float env "0" = Some 0%Q →
     ∀ (p_style : StyleComputed) (mult : option CompValue),
       length_percentage env "0" p_style mult = Return (Some (Number 0))
       ∧ length_percentage env "0unknownunit" p_style mult = Return (Some (Number 0))).
Proof.
  split; [|split].
  - intros value num unit p_style mult Hsplit Hunit Hnum.
    rewrite (length_percentage_dimension _ _ _ _ _ _ Hsplit Hunit).
    by rewrite _length_zero.
  - intros value num unit p_style mult Hsplit Hunit Hnum Hunknown.
    rewrite (length_percentage_dimension _ _ _ _ _ _ Hsplit Hunit).
    by rewrite _length_unknown_unit.
  - intros H0 H0u Hf p_style mult. split.
    + rewrite (length_percentage_dimension env "0" 0 EmptyString); [|by apply (split_units_fullmatch env "0" "0")|done].
      by rewrite _length_zero.
    + rewrite (length_percentage_dimension env "0unknownunit" 0 "unknownunit");
        [|by apply (split_units_fullmatch env "0unknownunit" "0")|done].
      by rewrite _length_zero.
Qed.

Lemma length_percentage_zero_witness :
  (∀ (p_style : StyleComputed) (mult : option CompValue),
     length_percentage Sample.env "0" p_style mult = Return (Some (Number 0))
     ∧ length_percentage Sample.env "0unknownunit" p_style mult = Return (Some (Number 0)))
  ∧ length_percentage Sample.env "0.0em" ∅ None = Return (Some (Number 0))
  ∧ length_percentage Sample.env "5foo" ∅ None = Raise ValueError.
Proof.
  destruct (length_percentage_zero Sample.env) as (Hzero & Hunknown & Hlit).
  split; [|split].
  - apply Hlit; reflexivity.
  - apply (Hzero "0.0em" 0%Q "em"); [reflexivity | discriminate | reflexivity].
  - apply (Hunknown "5foo" 5%Q "foo"); [reflexivity | discriminate | discriminate | reflexivity].
Defined.

(** C3. The acceptors are not total. [font_weight] of [lighter] with a parent
    weight above 1000 raises [ValueError]; and for a token that [split_units]
    splits into a number other than 0 and a unit that [_length] does not know,
    [length] and [length_percentage] raise the [ValueError] of [_length], which
    their [suppress(AttributeError)] lets through, and so does [font_size]
    when the token is none of its keywords. None of them returns [None]
    there. *)
Theorem acceptors_raise_ValueError (env : Env) :
  (∀ (p_style : StyleComputed) (p : Q),
     p_style !! "font-weight" = Some (Number p) → (1000 < p)%Q →
     font_weight env "lighter" p_style = Raise ValueError)
  ∧ (∀ (value : string) (num : Q) (unit : string) (p_style : StyleComputed),
       split_units env value = Return (num, unit) → unit ≠ "%" → ¬ (num == 0)%Q →
       known_unit env unit = false →
       length env value p_style = Raise ValueError
       ∧ length_percentage env value p_style None = Raise ValueError
       ∧ (∀ fs : CompValue,
            p_style !! "font-size" = Some fs →
            abs_font_size env !! value = None → rel_font_size env !! value = None →
            font_size env value p_style = Raise ValueError)).
Proof.
  split.
  - intros p_style p parent Hp. by apply (lighter_above_1000 _ _ p).
  - intros value num unit p_style Hsplit Hunit Hnum Hunknown.
    split; [|split].
    + rewrite (length_dimension _ _ _ _ _ Hsplit).
      by rewrite _length_unknown_unit.
    + rewrite (length_percentage_dimension _ _ _ _ _ _ Hsplit Hunit).
      by rewrite _length_unknown_unit.
    + intros fs Hfs Habs Hrel. unfold font_size, getitem.
      rewrite Habs, Hfs. cbn. rewrite Hrel.
      rewrite (length_percentage_dimension _ _ _ _ _ _ Hsplit Hunit).
      by rewrite _length_unknown_unit.
Qed.

Lemma acceptors_raise_ValueError_witness :
  font_weight Sample.env "lighter" {[ "font-weight" := Number 1001 ]} = Raise ValueError
  ∧ length Sample.env "5foo" ∅ = Raise ValueError
  ∧ length_percentage Sample.env "5foo" ∅ None = Raise ValueError.
Proof.
  destruct (acceptors_raise_ValueError Sample.env) as [Hw Hl].
  split.
  - apply (Hw _ 1001%Q); [apply lookup_singleton_eq | reflexivity].
  - destruct (Hl "5foo" 5%Q "foo" ∅) as (H1 & H2 & _);
      [reflexivity | discriminate | discriminate | reflexivity |].
    by split.
Defined.

(** ** [split] *)

Example split_words : split "1px 2px" = Return ["1px"; "2px"].
Proof. reflexivity. Qed.

Example split_function : split "rgb(1, 2, 3) solid" = Return ["rgb(1,2,3)"; "solid"].
Proof. reflexivity. Qed.

Example split_unmatched : split "rgb(0,0,0))" = Raise (AssertionError None).
Proof. reflexivity. Qed.

Lemma split_loop_nonempty (s : string) (rec : bool) (result : list string)
    (curr_string : string) (brackets : nat) (arr : list string) :
  split_loop s rec result curr_string brackets = Return arr →
  rec = true ∨ result ≠ [] → arr ≠ [].
Proof.
  revert rec result curr_string brackets.
  induction s as [|c s IH]; intros rec result curr_string brackets Hrun Hinv.
  - cbn in Hrun. injection Hrun as <-.
    destruct Hinv as [->|Hne]; [by destruct result|].
    destruct rec; [by destruct result|done].
  - cbn [split_loop] in Hrun.
    destruct (rec && (brackets =? 0)%nat && isspace c) eqn:Esplit;
      destruct (negb (isspace c)) eqn:Ew;
      repeat match type of Hrun with
             | context [Ascii.eqb c ?x] => destruct (Ascii.eqb c x)
             | context [match brackets with _ => _ end] => destruct brackets
             end;
      try discriminate;
      (eapply IH; [exact Hrun|]);
      first [ by left | right; by destruct result | done ].
Qed.

(** [split] always returns at least one token. *)
Lemma split_nonempty (value : string) (arr : list string) :
  split value = Return arr → arr ≠ [].
Proof. intros H. eapply split_loop_nonempty; [exact H|by left]. Qed.

Lemma append_char (s t : string) (c : ascii) :
  (s +:+ String c EmptyString) +:+ t = s +:+ String c t.
Proof.
  induction s as [|a s IH]; [reflexivity|].
  change (String a ((s +:+ String c EmptyString) +:+ t) = String a (s +:+ String c t)).
  by rewrite IH.
Qed.

Lemma append_empty (s : string) : s +:+ EmptyString = s.
Proof.
  induction s as [|a s IH]; [reflexivity|].
  change (String a (s +:+ EmptyString) = String a s). by rewrite IH.
Qed.

Lemma split_loop_token (s : string) (result : list string) (curr_string : string)
    (brackets : nat) :
  token_from brackets s = true →
  split_loop s true result curr_string brackets
  = Return (result ++ [curr_string +:+ s]).
Proof.
  revert curr_string brackets. induction s as [|c s IH]; intros curr_string brackets; cbn.
  - by rewrite append_empty.
  - intros [Hw Hs]%andb_true_iff. apply negb_true_iff in Hw. rewrite Hw.
    rewrite andb_false_r. cbn.
    destruct (Ascii.eqb c "("); [|destruct (Ascii.eqb c ")"); [destruct brackets; [done|]|]];
      by rewrite IH, append_char.
Qed.

(** A single token is the one token that [split] makes of it. *)
Lemma split_token (s : string) : is_token s = true → split s = Return [s].
Proof. intros H. unfold split. by rewrite split_loop_token. Qed.

Lemma length_append_char (s : string) (c : ascii) :
  String.length (s +:+ String c EmptyString) = S (String.length s).
Proof.
  induction s as [|a s IH]; [reflexivity|].
  change (S (String.length (s +:+ String c EmptyString)) = S (S (String.length s))).
  by rewrite IH.
Qed.

Lemma split_loop_length (s : string) (rec : bool) (result : list string)
    (curr_string : string) (brackets : nat) (arr : list string) :
  split_loop s rec result curr_string brackets = Return arr →
  (total_length arr ≤ total_length result + String.length curr_string + count_kept s)%nat.
Proof.
  revert rec result curr_string brackets.
  induction s as [|c s IH]; intros rec result curr_string brackets Hrun.
  - cbn in Hrun. injection Hrun as <-. unfold total_length.
    destruct rec; [rewrite sum_list_with_app|]; cbn; lia.
  - cbn [split_loop] in Hrun. cbn [count_kept].
    destruct (rec && (brackets =? 0)%nat && isspace c) eqn:Esplit;
      destruct (isspace c) eqn:Ew; cbn [negb] in Hrun;
      repeat match type of Hrun with
             | context [Ascii.eqb c ?x] => destruct (Ascii.eqb c x)
             | context [match brackets with _ => _ end] => destruct brackets
             end;
      try discriminate; apply IH in Hrun;
      unfold total_length in *;
      rewrite ?sum_list_with_app, ?length_append_char in Hrun; cbn in Hrun |- *; lia.
Qed.

Lemma count_kept_le (s : string) : (count_kept s ≤ String.length s)%nat.
Proof. induction s as [|c s IH]; cbn; [lia|]. destruct (isspace c); lia. Qed.

Lemma split_loop_returns_token (s : string) (rec : bool) (result : list string)
    (curr_string : string) (brackets : nat) (arr : list string) :
  count_kept s = String.length s →
  split_loop s rec result curr_string brackets = Return arr →
  token_from brackets s = true.
Proof.
  revert rec result curr_string brackets.
  induction s as [|c s IH]; intros rec result curr_string brackets Hkept Hrun; [done|].
  cbn [count_kept String.length] in Hkept. pose proof (count_kept_le s) as Hle.
  destruct (isspace c) eqn:Ew; [lia|].
  assert (count_kept s = String.length s) as Hs by lia.
  cbn [split_loop token_from] in Hrun |- *. rewrite Ew in Hrun |- *.
  rewrite andb_false_r in Hrun. cbn [negb andb] in Hrun |- *.
  destruct (Ascii.eqb c "("); [by eapply IH|].
  destruct (Ascii.eqb c ")"); [destruct brackets; [done|]|]; by eapply IH.
Qed.

(** And only a single token is. *)
Lemma split_token_inv (s : string) : split s = Return [s] → is_token s = true.
Proof.
  intros Hrun. eapply split_loop_returns_token; [|exact Hrun].
  apply split_loop_length in Hrun. unfold total_length in Hrun. cbn in Hrun.
  pose proof (count_kept_le s). lia.
Qed.

Lemma is_token_split (s : string) : is_token s = true ↔ split s = Return [s].
Proof. split; [apply split_token|apply split_token_inv]. Qed.

(** ** Directional shorthands *)

Lemma pretty_4 : pretty 4%nat = "4".
Proof. reflexivity. Qed.

Ltac assoc_cases H :=
  cbn -[String.eqb] in H;
  repeat match type of H with
         | context [String.eqb ?a ?k] => destruct (String.eqb_spec a k) as [<-|?]
         end;
  simplify_eq.

Section Directional.
Context (env : Env) (key fstring value : string) (arr : list string).
Hypothesis Hkey : assoc key dir_shorthands = Some fstring.
Hypothesis Hsplit : split value = Return arr.

Lemma dir_shorthand_not_all : String.eqb key "all" = false.
Proof. destruct (String.eqb_spec key "all") as [->|]; [discriminate|done]. Qed.

Lemma dir_shorthand_expands (top : string) :
  arr !! 0%nat = Some top → (List.length arr ≤ 4)%nat →
  process_property env key value
  = Return ((λ kv, (format1 fstring kv.1, kv.2)) <$> side_values top arr).
Proof.
  intros Htop Hlen. unfold process_property.
  rewrite Hsplit. cbn [mbind py_bind]. rewrite dir_shorthand_not_all, Hkey.
  destruct arr as [|a [|b [|c [|d [|e rest]]]]]; cbn in Htop, Hlen; simplify_eq;
    [ | | | | lia ]; pose proof Hkey as Hk; assoc_cases Hk; reflexivity.
Qed.

Lemma dir_shorthand_too_many :
  (4 < List.length arr)%nat →
  process_property env key value
  = Raise (AssertionError
             (Some ("Too many values: " +:+ pretty (List.length arr) +:+ "/4"))).
Proof.
  intros Hlen. unfold process_property.
  rewrite Hsplit. cbn [mbind py_bind]. rewrite dir_shorthand_not_all, Hkey.
  destruct arr as [|a [|b [|c [|d [|e rest]]]]]; cbn in Hlen; try lia.
  reflexivity.
Qed.

End Directional.

(** ** One declaration in [inner] *)

Section InnerStep.
Context (env : Env) (key value : string) (d : list (string * string))
  (done : dict) (log : list string).

Lemma inner_expanded (items : dict) :
  process_property env key value = Return items →
  inner env ((key, value) :: d) done log = inner env d (dict_update done items) log.
Proof. intros H. cbn. by rewrite H. Qed.

Lemma inner_reported (arg0 : string) :
  process_property env key value = Raise (AssertionError (Some arg0)) →
  inner env ((key, value) :: d) done log
  = inner env d done (log_error log (report arg0 key value)).
Proof. intros H. cbn. by rewrite H. Qed.

Lemma inner_bare_assert :
  process_property env key value = Raise (AssertionError None) →
  inner env ((key, value) :: d) done log = Raise IndexError.
Proof. intros H. cbn. by rewrite H. Qed.

Lemma inner_uncaught (e : exn) :
  process_property env key value = Raise e → is_AssertionError e = false →
  inner env ((key, value) :: d) done log = Raise e.
Proof. intros H He. cbn. rewrite H. by destruct e. Qed.

End InnerStep.

(** C6. Directional shorthand. For each of [margin], [padding], [inset],
    [border-width], [border-color] and [border-style] (the keys of
    [dir_shorthands]) and a value of [k] tokens, there being always at least
    one: with [k <= 4], [process_property] returns the four longhands of the
    template in the order top, right, bottom, left, the tokens assigned in
    that order and each missing one taken from its fallback (right from top,
    bottom from top, left from right); with [k > 4] it fails with the
    message [Too many values], and [process_input] reports the declaration
    and goes on to the next one with [done] unchanged. In particular
    [margin: 1px 2px] expands to margin-top 1px, margin-right 2px,
    margin-bottom 1px, margin-left 2px. *)
Theorem directional_shorthand (env : Env) :
  keys dir_shorthands
  = ["margin"; "padding"; "border-width"; "border-color"; "border-style"; "inset"]
  ∧ (∀ (key fstring value : string) (arr : list string),
     assoc key dir_shorthands = Some fstring → split value = Return arr →
     (1 ≤ List.length arr)%nat
     ∧ (∀ top : string,
          arr !! 0%nat = Some top → (List.length arr ≤ 4)%nat →
          process_property env key value
          = Return ((λ kv, (format1 fstring kv.1, kv.2)) <$> side_values top arr))
     ∧ ((4 < List.length arr)%nat →
        process_property env key value
        = Raise (AssertionError
                   (Some ("Too many values: " +:+ pretty (List.length arr) +:+ "/4")))
        ∧ ∀ (d : list (string * string)) (done : dict) (log : list string),
            inner env ((key, value) :: d) done log
            = inner env d done
                (log_error log
                   (report ("Too many values: " +:+ pretty (List.length arr) +:+ "/4")
                      key value))))
  ∧ process_property env "margin" "1px 2px"
    = Return [("margin-top", "1px"); ("margin-right", "2px");
              ("margin-bottom", "1px"); ("margin-left", "2px")].
Proof.
  split; [reflexivity|]. split; [|reflexivity].
  intros key fstring value arr Hkey Hsplit. split; [|split].
  - apply split_nonempty in Hsplit. destruct arr; [done|cbn; lia].
  - intros top. by apply dir_shorthand_expands.
  - intros Hlen.
    pose proof (dir_shorthand_too_many env _ _ _ _ Hkey Hsplit Hlen) as Hraise.
    split; [done|]. intros d done log. by apply inner_reported.
Qed.

Lemma directional_shorthand_witness :
  process_property Sample.env "border-color" "red rgb(0, 0, 255) green"
  = Return [("border-top-color", "red"); ("border-right-color", "rgb(0,0,255)");
            ("border-bottom-color", "green"); ("border-left-color", "rgb(0,0,255)")]
  ∧ process_property Sample.env "inset" "1px 2px 3px 4px 5px"
    = Raise (AssertionError (Some "Too many values: 5/4")).
Proof.
  destruct (directional_shorthand Sample.env) as (_ & H & _).
  split.
  - destruct (H "border-color" "border-{}-color" "red rgb(0, 0, 255) green"
                ["red"; "rgb(0,0,255)"; "green"]) as (_ & Hexp & _);
      [reflexivity | reflexivity |].
    apply (Hexp "red"); [reflexivity | cbn; lia].
  - destruct (H "inset" "{}" "1px 2px 3px 4px 5px" ["1px"; "2px"; "3px"; "4px"; "5px"])
      as (_ & _ & Hmany); [reflexivity | reflexivity |].
    destruct Hmany as [Hraise _]; [cbn; lia | exact Hraise].
Defined.

(** ** Smart shorthands *)

Lemma in_dict_None {A} (k : string) (m : gmap string A) :
  m !! k = None → in_dict k m = false.
Proof. unfold in_dict. by intros ->. Qed.

Lemma in_dict_Some {A} (k : string) (m : gmap string A) :
  is_Some (m !! k) → in_dict k m = true.
Proof. unfold in_dict. by intros [x ->]. Qed.

Section Smart.
Context (env : Env).

Lemma is_valid_border_width (v : string) :
  is_valid env "border-width" v = Return (in_dict v (kws BorderStyleAttr)).
Proof. reflexivity. Qed.

Lemma is_valid_border_style (v : string) :
  is_valid env "border-style" v
  = Return (in_dict v (abs_border_width env) || check_regex env "dimension" v).
Proof. reflexivity. Qed.

Lemma is_valid_border_color (v : string) :
  is_valid env "border-color" v
  = if in_colors env v then Return true
    else truthy <$> color env v {[ "color" := Str "black" ]}.
Proof. reflexivity. Qed.

(** [color] of a string that is not of the form [rgb(...)]. *)
Lemma color_plain (value v : string) (p_style : StyleComputed) :
  String.eqb value "currentcolor" = false → str_join0 (str_split value) = v →
  rgb_re_match v = None → rgba_re_match v = None →
  color env value p_style = Return (ColorV <$> Color_of_str env v).
Proof. intros H1 <- H2 H3. unfold color. by rewrite H1, H2, H3. Qed.

(** The smart branch of [process_property]. *)
Lemma process_property_smart (key value : string) (arr shorthand : list string) :
  String.eqb key "all" = false → assoc key dir_shorthands = None →
  assoc key smart_shorthands = Some shorthand →
  split value = Return arr →
  process_property env key value
  = (_ ← py_assert (List.length arr <=? List.length shorthand)%nat
           (Some ("Too many values: " +:+ pretty (List.length arr) +:+ ", max "
                  +:+ pretty (List.length shorthand)));
     result ← smart_result env arr shorthand [];
     let left := sym_diff shorthand (keys result) in
     _ ← py_assert (is_nil left) (Some ("Invalid key(s): " +:+ str_join ", " left));
     Return result).
Proof.
  intros Hall Hdir Hsmart Hsplit. unfold process_property.
  rewrite Hsplit. cbn [mbind py_bind]. by rewrite Hall, Hdir, Hsmart.
Qed.

End Smart.

Section Border.
Context (env : Env) (Henv : border_tokens env).

Let shorthand := ["border-width"; "border-style"; "border-color"].

Lemma in_colors_other (v : string) :
  v ≠ "currentcolor" → v ≠ "transparent" → v ≠ "canvastext" →
  THECOLORS env !! v = None → in_colors env v = false.
Proof.
  intros H1 H2 H3 H. unfold in_colors, in_dict, THECOLORS'.
  rewrite (eqb_ne _ _ H1). cbn.
  by rewrite !lookup_insert_ne, H.
Qed.

Lemma is_valid_2px :
  is_valid env "border-width" "2px" = Return false
  ∧ is_valid env "border-style" "2px" = Return true
  ∧ is_valid env "border-color" "2px" = Return false.
Proof.
  rewrite is_valid_border_width, is_valid_border_style, is_valid_border_color.
  rewrite (dimension_2px env Henv), orb_true_r.
  rewrite in_colors_other by (done || apply Henv).
  rewrite (color_plain env "2px" "2px") by (by vm_compute).
  by rewrite (Color_2px env Henv).
Qed.

Lemma is_valid_solid :
  is_valid env "border-width" "solid" = Return true
  ∧ is_valid env "border-style" "solid" = Return false
  ∧ is_valid env "border-color" "solid" = Return false.
Proof.
  rewrite is_valid_border_width, is_valid_border_style, is_valid_border_color.
  rewrite (in_dict_None _ _ (width_solid env Henv)), (dimension_solid env Henv).
  rewrite in_colors_other by (done || apply Henv).
  rewrite (color_plain env "solid" "solid") by (by vm_compute).
  by rewrite (Color_solid env Henv).
Qed.

Lemma is_valid_red :
  is_valid env "border-width" "red" = Return false
  ∧ is_valid env "border-style" "red" = Return false
  ∧ is_valid env "border-color" "red" = Return true.
Proof.
  rewrite is_valid_border_width, is_valid_border_style, is_valid_border_color.
  rewrite (in_dict_None _ _ (width_red env Henv)), (dimension_red env Henv).
  replace (in_colors env "red") with true; [done|].
  unfold in_colors, in_dict, THECOLORS'. cbn.
  rewrite !lookup_insert_ne by done.
  by destruct (colors_red env Henv) as [c ->].
Qed.

(** Each token goes to one key, in whatever order the set is iterated. *)
Lemma smart_keys_border (sh : list string) (result : dict) :
  sh ∈ permutations shorthand →
  smart_keys env "2px" sh result = Return (dict_set "border-style" "2px" result)
  ∧ smart_keys env "solid" sh result = Return (dict_set "border-width" "solid" result)
  ∧ smart_keys env "red" sh result = Return (dict_set "border-color" "red" result).
Proof.
  intros Hsh. vm_compute in Hsh.
  destruct is_valid_2px as (P1 & P2 & P3), is_valid_solid as (S1 & S2 & S3),
    is_valid_red as (R1 & R2 & R3).
  repeat (apply elem_of_cons in Hsh as [->|Hsh]); [..|by apply elem_of_nil in Hsh];
    cbn [smart_keys]; by rewrite P1, P2, P3, S1, S2, S3, R1, R2, R3.
Qed.

Ltac run_smart_keys Hkeys sh :=
  repeat match goal with
         | |- context [smart_keys env ?v sh ?r] =>
             let H := fresh in
             pose proof (Hkeys r) as H;
             first [ rewrite (proj1 H) | rewrite (proj1 (proj2 H))
                   | rewrite (proj2 (proj2 H)) ];
             cbn [mbind py_bind]
         end.

(** The result does not depend on the order in which the set is iterated. *)
Lemma smart_result_border (sh toks : list string) :
  sh ∈ permutations shorthand → toks ∈ permutations ["2px"; "solid"; "red"] →
  smart_result env toks sh [] = smart_result env toks shorthand [].
Proof.
  intros Hsh Htoks.
  pose proof (λ result, smart_keys_border sh result Hsh) as Hkeys.
  pose proof (λ result, smart_keys_border shorthand result (permutations_refl _)) as Hkeys0.
  vm_compute in Htoks.
  repeat (apply elem_of_cons in Htoks as [->|Htoks]); [..|by apply elem_of_nil in Htoks].
  all: cbn [smart_result]; run_smart_keys Hkeys sh; run_smart_keys Hkeys0 shorthand.
  all: reflexivity.
Qed.

Lemma border_expansion (toks : list string) :
  toks ∈ permutations ["2px"; "solid"; "red"] →
  ∃ result : dict,
    process_property env "border" (str_join " " toks) = Return result
    ∧ result ≡ₚ [("border-width", "solid"); ("border-style", "2px");
                 ("border-color", "red")].
Proof.
  intros Hperm.
  pose proof (λ result, smart_keys_border shorthand result (permutations_refl _)) as Hkeys.
  vm_compute in Hperm.
  repeat (apply elem_of_cons in Hperm as [->|Hperm]); [..|by apply elem_of_nil in Hperm].
  all: eexists; split;
    [ match goal with
      | |- context [str_join " " ?t] =>
          rewrite (process_property_smart env "border" _ t shorthand) by reflexivity
      end;
      cbn [py_assert mbind py_bind List.length Nat.leb smart_result];
      run_smart_keys Hkeys shorthand; reflexivity
    | ].
  all: apply permutations_Permutation; vm_compute; repeat constructor.
Qed.

End Border.

(** Whatever the configuration is, the validator of [border-color] returns. *)
Lemma is_valid_border_color_returns (env : Env) (v : string) :
  ∃ b : bool, is_valid env "border-color" v = Return b.
Proof.
  rewrite is_valid_border_color. destruct (in_colors env v); [by eexists|].
  unfold color. destruct (String.eqb v "currentcolor").
  - unfold getitem. rewrite lookup_singleton_eq. by eexists.
  - destruct (rgb_re_match _); [by eexists|]. destruct (rgba_re_match _); by eexists.
Qed.

(** Whatever the configuration is, when [border: 2px solid red] expands at
    all, [border-width] is [solid]: its validator in [guessing] tests the
    keywords of [BorderStyleAttr], which [2px] is not. *)
Lemma border_width_is_solid (env : Env) (result : dict) :
  process_property env "border" "2px solid red" = Return result →
  assoc "border-width" result = Some "solid".
Proof.
  rewrite (process_property_smart env "border" _ ["2px"; "solid"; "red"]
             ["border-width"; "border-style"; "border-color"]) by reflexivity.
  cbn [py_assert mbind py_bind List.length Nat.leb smart_result smart_keys].
  rewrite !is_valid_border_width, !is_valid_border_style.
  replace (in_dict "2px" (kws BorderStyleAttr)) with false by (by vm_compute).
  replace (in_dict "solid" (kws BorderStyleAttr)) with true by (by vm_compute).
  replace (in_dict "red" (kws BorderStyleAttr)) with false by (by vm_compute).
  destruct (is_valid_border_color_returns env "2px") as [c1 ->].
  destruct (is_valid_border_color_returns env "solid") as [c2 ->].
  destruct (is_valid_border_color_returns env "red") as [c3 ->].
  destruct (in_dict "2px" (abs_border_width env) || check_regex env "dimension" "2px"),
    (in_dict "solid" (abs_border_width env) || check_regex env "dimension" "solid"),
    (in_dict "red" (abs_border_width env) || check_regex env "dimension" "red"),
    c1, c2, c3; intros H; vm_compute in H; by simplify_eq.
Qed.

(** C1. Smart-shorthand expansion of [border: 2px solid red]. Whatever the
    configuration is, an expansion of this declaration gives [solid] to
    [border-width], not [2px] as the specification has it: in [guessing] the
    validator under [border-width] tests the style keywords and the one under
    [border-style] tests widths and dimensions. In a configuration where
    [2px] is a dimension, [red] a colour and [solid] neither,
    [process_property] expands every permutation of the three tokens to one
    and the same map, so the expansion does not depend on the order of the
    tokens; that map is border-width [solid], border-style [2px],
    border-color [red]. *)
Theorem border_shorthand_swaps_width_and_style (env : Env) :
  (∀ result : dict,
     process_property env "border" "2px solid red" = Return result →
     assoc "border-width" result = Some "solid")
  ∧ (border_tokens env →
     ∀ toks : list string,
       toks ≡ₚ ["2px"; "solid"; "red"] →
       ∃ result : dict,
         process_property env "border" (str_join " " toks) = Return result
         ∧ result ≡ₚ [("border-width", "solid"); ("border-style", "2px");
                      ("border-color", "red")]).
Proof.
  split; [apply border_width_is_solid|].
  intros Henv toks Hperm. apply border_expansion; [done|].
  by apply permutations_Permutation.
Qed.

Lemma border_shorthand_swaps_width_and_style_witness :
  (∃ result : dict,
     process_property Sample.env "border" "red 2px solid" = Return result
     ∧ result ≡ₚ [("border-width", "solid"); ("border-style", "2px");
                  ("border-color", "red")])
  ∧ assoc "border-width"
      [("border-style", "2px"); ("border-width", "solid"); ("border-color", "red")]
    = Some "solid".
Proof.
  destruct (border_shorthand_swaps_width_and_style Sample.env) as [Hwidth Hperm].
  split.
  - refine (Hperm _ ["red"; "2px"; "solid"] _).
    + split; try (vm_compute; reflexivity). vm_compute. eexists. reflexivity.
    + apply perm_trans with ["2px"; "red"; "solid"]; [apply perm_swap|].
      apply perm_skip, perm_swap.
  - apply Hwidth. reflexivity.
Defined.

(** ** The registry *)

Lemma style_attrs_keys (env : Env) : keys (style_attrs env) = canonical_names.
Proof. reflexivity. Qed.

Lemma canonical_names_NoDup : NoDup canonical_names.
Proof. apply (bool_decide_unpack (NoDup canonical_names)). by vm_compute. Qed.

Lemma str_in_In (x : string) (l : list string) : str_in x l = true ↔ In x l.
Proof.
  unfold str_in. rewrite existsb_exists. split.
  - intros (y & Hy & ->%String.eqb_eq). done.
  - intros H. exists x. by rewrite String.eqb_refl.
Qed.

Lemma assoc_Some_In {A} (k : string) (l : list (string * A)) (v : A) :
  assoc k l = Some v → In (k, v) l.
Proof.
  induction l as [|[k' v'] l IH]; [done|]. cbn.
  destruct (String.eqb_spec k' k) as [->|]; [intros [= ->]; by left|].
  intros H. right. by apply IH.
Qed.

Lemma assoc_None {A} (k : string) (l : list (string * A)) :
  assoc k l = None ↔ ¬ In k (keys l).
Proof.
  induction l as [|[k' v'] l IH]; [by split; [intros _ []|]|]. cbn.
  destruct (String.eqb_spec k' k) as [->|Hne].
  - split; [done|]. intros H. destruct H. by left.
  - rewrite IH. split; [intros H [?|?]; done | intros H ?; apply H; by right].
Qed.

Lemma assoc_is_Some {A} (k : string) (l : list (string * A)) :
  is_Some (assoc k l) ↔ In k (keys l).
Proof.
  destruct (assoc k l) eqn:E.
  - split; [|by eexists]. intros _. apply assoc_Some_In in E.
    apply (in_map fst) in E. exact E.
  - apply assoc_None in E. split; [by intros [? ?]|done].
Qed.

Lemma in_style_attrs_canonical (env : Env) (name : string) :
  in_style_attrs env name = true ↔ In name canonical_names.
Proof.
  unfold in_style_attrs. rewrite <- (style_attrs_keys env), <- assoc_is_Some.
  destruct (assoc name (style_attrs env)); split; try done.
Qed.

Lemma canonical_plain (env : Env) (name : string) :
  in_style_attrs env name = true → plain_name env name = true.
Proof.
  intros H%in_style_attrs_canonical.
  assert (forallb (plain_name env) canonical_names = true) as Hall by reflexivity.
  rewrite forallb_forall in Hall. by apply Hall.
Qed.

Lemma plain_name_inv (env : Env) (name : string) :
  plain_name env name = true →
  String.eqb name "all" = false ∧ assoc name dir_shorthands = None
  ∧ assoc name smart_shorthands = None ∧ str_in name global_values = false
  ∧ guessing env name = None.
Proof.
  unfold plain_name. rewrite !andb_true_iff, !negb_true_iff.
  intros ((((H1 & H2) & H3) & H4) & H5). repeat split; try done.
  - by destruct (assoc name dir_shorthands).
  - by destruct (assoc name smart_shorthands).
  - by destruct (guessing env name).
Qed.

(** The plain branch of [process_property]. *)
Lemma process_property_plain (env : Env) (key value tok : string) :
  String.eqb key "all" = false → assoc key dir_shorthands = None →
  assoc key smart_shorthands = None → split value = Return [tok] →
  process_property env key value
  = (_ ← py_assert (in_style_attrs env key) (Some "Unknown Property");
     ok ← is_valid env key tok;
     _ ← py_assert ok (Some "Invalid Value");
     Return [(key, tok)]).
Proof.
  intros Hall Hdir Hsmart Hsplit. unfold process_property.
  rewrite Hsplit. cbn [mbind py_bind]. by rewrite Hall, Hdir, Hsmart.
Qed.

(** [is_valid] of a canonical name goes to the acceptor of its [StyleAttr]. *)
Lemma is_valid_canonical (env : Env) (name value : string) (attr : StyleAttr) :
  assoc name (style_attrs env) = Some attr →
  is_valid env name value
  = if in_dict name (kws attr) then Return true
    else match accept env (acc attr) value ∅ with
         | Return None => Return false
         | Return (Some _) => Return true
         | Raise e => if is_KeyError e then Return true else Raise e
         end.
Proof.
  intros Hattr.
  assert (in_style_attrs env name = true) as Hc
    by (unfold in_style_attrs; by rewrite Hattr).
  apply canonical_plain, plain_name_inv in Hc as (_ & _ & _ & Hg & Hguess).
  unfold is_valid. by rewrite Hg, Hguess, Hattr.
Qed.

(** A property whose acceptor is [noop] has no valid value: [is_valid] looks
    for the name of the property, not for the value, among the keywords. *)
Lemma is_valid_keyword_property (env : Env) (name value : string) (attr : StyleAttr) :
  assoc name (style_attrs env) = Some attr → acc attr = acc_noop →
  in_dict name (kws attr) = false →
  is_valid env name value = Return false.
Proof.
  intros Hattr Hacc Hkw. rewrite (is_valid_canonical env name value attr Hattr).
  by rewrite Hkw, Hacc.
Qed.

Example is_valid_display_block (env : Env) : is_valid env "display" "block" = Return false.
Proof. by apply (is_valid_keyword_property env "display" "block" _ eq_refl). Qed.

(** ** Validity against the empty parent style *)

Section EmptyParent.
Context (env : Env).



Section RelativeLength.
Context (name value : string) (attr : StyleAttr) (num : Q).
Hypothesis Hattr : assoc name (style_attrs env) = Some attr.
Hypothesis Hacc : acc attr = acc_length_percentage.






End RelativeLength.

End EmptyParent.




(** ** Exceptions that [process_input] does not handle *)

Lemma inner_app (env : Env) (d1 d2 : list (string * string)) (done0 : dict)
    (log : list string) :
  inner env (d1 ++ d2) done0 log
  = '(done', log') ← inner env d1 done0 log; inner env d2 done' log'.
Proof.
  revert done0 log. induction d1 as [|[key value] d1 IH]; intros done0 log; [done|].
  cbn [app inner]. destruct (process_property env key value) as [items|[[arg0|]| | | | |]];
    by rewrite ?IH.
Qed.

Section Uncaught.
Context (env : Env).

Lemma process_property_wrong_unit (value tok : string) (num : Q) (unit : string) :
  split value = Return [tok] →
  split_units env tok = Return (num, unit) → unit ≠ "%" → ¬ (num == 0)%Q →
  known_unit env unit = false →
  process_property env "width" value = Raise ValueError.
Proof.
  intros Hsplit Hunits Hunit Hnum Hunknown.
  rewrite (process_property_plain env "width" value tok) by done.
  rewrite (is_valid_canonical env "width" tok AALP) by reflexivity.
  replace (in_dict "width" (kws AALP)) with false by reflexivity.
  cbn [acc AALP StyleAttr_init accept].
  rewrite (length_percentage_dimension env tok num unit) by done.
  by rewrite _length_unknown_unit.
Qed.

Lemma process_property_bare_assert (key value : string) :
  split value = Raise (AssertionError None) →
  process_property env key value = Raise (AssertionError None).
Proof. intros H. unfold process_property. by rewrite H. Qed.

Lemma process_property_two_tokens (key value : string) (arr : list string) :
  in_style_attrs env key = true → split value = Return arr →
  List.length arr ≠ 1%nat →
  process_property env key value = Raise (AssertionError None).
Proof.
  intros Hkey Hsplit Hlen.
  apply canonical_plain, plain_name_inv in Hkey as (Hall & Hdir & Hsmart & _).
  unfold process_property. rewrite Hsplit. cbn [mbind py_bind].
  rewrite Hall, Hdir, Hsmart.
  destruct arr as [|a [|b arr]]; done.
Qed.

Lemma process_input_raises (pre rest : list (string * string)) (key value : string)
    (done : dict) (log : list string) (e : exn) (fuel : nat) :
  inner env pre [] [] = Return (done, log) →
  inner env [(key, value)] done log = Raise e →
  process_input env fuel (pre ++ (key, value) :: rest) = Some (Raise e).
Proof.
  intros Hpre Hone. unfold process_input.
  rewrite inner_app, Hpre. cbn [mbind py_bind].
  change ((key, value) :: rest) with ([(key, value)] ++ rest).
  by rewrite inner_app, Hone.
Qed.

End Uncaught.

(** What [inner] does recover from: a value that [is_valid] rejects, and a
    property that is not registered, are reported and skipped. *)
Lemma invalid_value_is_skipped (env : Env) (key value : string)
    (d : list (string * string)) (done0 : dict) (log : list string) :
  in_style_attrs env key = true → is_token value = true →
  is_valid env key value = Return false →
  inner env ((key, value) :: d) done0 log
  = inner env d done0 (log_error log (report "Invalid Value" key value)).
Proof.
  intros Hkey Htoken Hvalid. apply inner_reported.
  pose proof Hkey as (Hall & Hdir & Hsmart & _)%canonical_plain%plain_name_inv.
  rewrite (process_property_plain env key value value) by (done || by apply split_token).
  by rewrite Hkey, Hvalid.
Qed.

Lemma unknown_property_is_skipped (env : Env) (key value : string)
    (d : list (string * string)) (done0 : dict) (log : list string) :
  String.eqb key "all" = false → assoc key dir_shorthands = None →
  assoc key smart_shorthands = None → in_style_attrs env key = false →
  is_token value = true →
  inner env ((key, value) :: d) done0 log
  = inner env d done0 (log_error log (report "Unknown Property" key value)).
Proof.
  intros Hall Hdir Hsmart Hkey Htoken. apply inner_reported.
  rewrite (process_property_plain env key value value) by (done || by apply split_token).
  by rewrite Hkey.
Qed.

(** C2. Error recovery in [process_input] is not local. When the
    declarations before it have been processed, a declaration [width: v]
    whose value is one token with a number other than 0 and a unit that
    [_length] does not know makes the whole call raise [ValueError]: [inner]
    catches [AssertionError] only. And a declaration that fails a bare
    [assert] (an unmatched closing parenthesis in [split], or several tokens
    for a registered property) makes the whole call raise [IndexError], from
    [e.args[0]] in the handler. In both cases nothing is returned for the
    other declarations. *)
Theorem process_input_aborts (env : Env) :
  (∀ (pre rest : list (string * string)) (value tok : string) (num : Q) (unit : string)
     (done : dict) (log : list string) (fuel : nat),
     inner env pre [] [] = Return (done, log) →
     split value = Return [tok] →
     split_units env tok = Return (num, unit) → unit ≠ "%" → ¬ (num == 0)%Q →
     known_unit env unit = false →
     process_input env fuel (pre ++ ("width", value) :: rest) = Some (Raise ValueError))
  ∧ (∀ (pre rest : list (string * string)) (key value : string)
       (done : dict) (log : list string) (fuel : nat),
       inner env pre [] [] = Return (done, log) →
       split value = Raise (AssertionError None) →
       process_input env fuel (pre ++ (key, value) :: rest) = Some (Raise IndexError))
  ∧ (∀ (pre rest : list (string * string)) (key value : string) (arr : list string)
       (done : dict) (log : list string) (fuel : nat),
       inner env pre [] [] = Return (done, log) →
       in_style_attrs env key = true → split value = Return arr →
       List.length arr ≠ 1%nat →
       process_input env fuel (pre ++ (key, value) :: rest) = Some (Raise IndexError)).
Proof.
  split; [|split].
  - intros pre rest value tok num unit done log fuel Hpre Hsplit Hunits Hunit Hnum Hunk.
    apply (process_input_raises env pre rest _ _ done log); [done|].
    apply inner_uncaught; [|done].
    by apply (process_property_wrong_unit env value tok num unit).
  - intros pre rest key value done log fuel Hpre Hsplit.
    apply (process_input_raises env pre rest _ _ done log); [done|].
    by apply inner_bare_assert, process_property_bare_assert.
  - intros pre rest key value arr done log fuel Hpre Hkey Hsplit Hlen.
    apply (process_input_raises env pre rest _ _ done log); [done|].
    by apply inner_bare_assert, (process_property_two_tokens env key value arr).
Qed.

Lemma process_input_aborts_witness :
  process_input Sample.env 2 [("color", "red"); ("width", "5foo"); ("height", "10px")]
  = Some (Raise ValueError)
  ∧ process_input Sample.env 2 [("color", "rgb(0,0,0))"); ("width", "10px")]
    = Some (Raise IndexError)
  ∧ process_input Sample.env 2 [("color", "red blue"); ("width", "10px")]
    = Some (Raise IndexError).
Proof.
  destruct (process_input_aborts Sample.env) as (Hvalue & Hparen & Htokens).
  split; [|split].
  - apply (Hvalue [("color", "red")] [("height", "10px")] "5foo" "5foo" 5%Q "foo"
             [("color", "red")] []);
      [reflexivity | reflexivity | reflexivity | discriminate | discriminate | reflexivity].
  - apply (Hparen [] [("width", "10px")] "color" "rgb(0,0,0))" [] []); reflexivity.
  - apply (Htokens [] [("width", "10px")] "color" "red blue" ["red"; "blue"] [] []);
      [reflexivity | reflexivity | reflexivity | discriminate].
Defined.

(** ** Keys of dictionaries *)

Section DictKeys.
Context (P : string → Prop).

Lemma dict_set_keys (k v : string) (d : dict) :
  P k → Forall P (keys d) → Forall P (keys (dict_set k v d)).
Proof.
  intros Hk. induction d as [|[k' v'] d IH]; cbn; intros Hd.
  - by repeat constructor.
  - inversion_clear Hd. destruct (String.eqb k' k); constructor; auto.
Qed.

Lemma dict_update_keys (d : dict) (items : list (string * string)) :
  Forall P (keys d) → Forall P (keys items) → Forall P (keys (dict_update d items)).
Proof.
  revert d. induction items as [|[k v] items IH]; intros d Hd Hitems; [done|].
  inversion_clear Hitems. cbn. apply IH; [|done]. by apply dict_set_keys.
Qed.

Lemma dict_of_items_keys (items : list (string * string)) :
  Forall P (keys items) → Forall P (keys (dict_of_items items)).
Proof. intros H. apply dict_update_keys; [constructor|done]. Qed.

Lemma filter_keys (f : string * string → bool) (d : dict) :
  Forall P (keys d) → Forall P (keys (List.filter f d)).
Proof.
  induction d as [|kv d IH]; cbn; intros Hd; [done|].
  inversion_clear Hd. destruct (f kv); [constructor|]; auto.
Qed.

End DictKeys.

Lemma filter_keys_true (f : string → bool) (d : dict) :
  Forall (λ k, f k = true) (keys (List.filter (λ item, f item.1) d)).
Proof.
  induction d as [|[k v] d IH]; cbn; [constructor|].
  destruct (f k) eqn:E; [constructor|]; done.
Qed.

Lemma filter_all_true {A} (f : A → bool) (l : list A) :
  Forall (λ x, f x = true) l → List.filter f l = l.
Proof.
  induction 1 as [|x l Hx _ IH]; cbn; [done|]. by rewrite Hx, IH.
Qed.

Lemma filter_none_true {A} (f : A → bool) (l : list A) :
  Forall (λ x, f x = true) l → List.filter (λ x, negb (f x)) l = [].
Proof.
  induction 1 as [|x l Hx _ IH]; cbn; [done|]. by rewrite Hx.
Qed.

Lemma Forall_keys {A} (P : string → Prop) (d : list (string * A)) :
  Forall P (keys d) ↔ Forall (λ item, P item.1) d.
Proof. unfold keys. by rewrite Forall_fmap. Qed.

(** ** What a pass of the expansion leaves in [done] *)

Lemma in_style_attrs_str_in (env : Env) (k : string) :
  in_style_attrs env k = str_in k canonical_names.
Proof.
  apply eq_true_iff_eq. by rewrite in_style_attrs_canonical, str_in_In.
Qed.

Section Passes.
Context (env : Env).

Let canonical (k : string) : Prop := in_style_attrs env k = true.

Lemma smart_keys_subset (P : string → Prop) (v : string) (shorthand : list string)
    (result result' : dict) :
  Forall P shorthand → Forall P (keys result) →
  smart_keys env v shorthand result = Return result' → Forall P (keys result').
Proof.
  revert result. induction shorthand as [|k ks IH]; intros result Hsh Hres; cbn.
  - by intros [= <-].
  - inversion_clear Hsh. destruct (is_valid env k v) as [[]|]; cbn; try done.
    + apply IH; [done|]. by apply dict_set_keys.
    + by apply IH.
Qed.

Lemma smart_result_subset (P : string → Prop) (arr shorthand : list string)
    (result result' : dict) :
  Forall P shorthand → Forall P (keys result) →
  smart_result env arr shorthand result = Return result' → Forall P (keys result').
Proof.
  intros Hsh. revert result. induction arr as [|v vs IH]; intros result Hres; cbn.
  - by intros [= <-].
  - destruct (smart_keys env v shorthand result) as [r|] eqn:E; cbn; [|done].
    apply IH. by apply (smart_keys_subset P v shorthand result).
Qed.

(** The longhands of a directional shorthand are canonical. *)
Lemma dir_shorthand_keys (key fstring value : string) (items : dict) :
  assoc key dir_shorthands = Some fstring →
  process_property env key value = Return items →
  Forall canonical (keys items).
Proof.
  intros Hkey Hrun.
  destruct (split value) as [arr|e] eqn:Hsplit.
  2:{ unfold process_property in Hrun. by rewrite Hsplit in Hrun. }
  destruct (le_lt_dec (List.length arr) 4) as [Hle|Hgt].
  2:{ by rewrite (dir_shorthand_too_many env _ _ _ _ Hkey Hsplit Hgt) in Hrun. }
  destruct arr as [|top arr'] eqn:Harr; [by apply split_nonempty in Hsplit|].
  rewrite (dir_shorthand_expands env _ _ _ _ Hkey Hsplit top eq_refl Hle) in Hrun.
  injection Hrun as <-. unfold canonical.
  assoc_cases Hkey; repeat constructor.
Qed.

(** An expansion has canonical keys and keys of [dir_shorthands] only. *)
Lemma process_property_keys (key value : string) (items : dict) :
  process_property env key value = Return items →
  Forall (λ k, canonical_or_dir k = true) (keys items).
Proof.
  intros Hrun.
  destruct (String.eqb key "all") eqn:Hall.
  { unfold process_property in Hrun. destruct (split value) as [arr|]; [|done].
    cbn [mbind py_bind] in Hrun. rewrite Hall in Hrun. unfold py_assert in Hrun.
    destruct (_ =? 1)%nat; cbn [mbind py_bind] in Hrun; [|done].
    destruct (str_in value global_values); cbn [mbind py_bind] in Hrun; [|done].
    injection Hrun as <-.
    cbn. repeat constructor. }
  destruct (assoc key dir_shorthands) as [fstring|] eqn:Hdir.
  { eapply Forall_impl; [by eapply dir_shorthand_keys|].
    intros k Hk. unfold canonical_or_dir.
    by rewrite <- (in_style_attrs_str_in env), Hk. }
  destruct (assoc key smart_shorthands) as [shorthand|] eqn:Hsmart.
  { destruct (split value) as [arr|] eqn:Hsplit;
      [|unfold process_property in Hrun; by rewrite Hsplit in Hrun].
    rewrite (process_property_smart env key value arr shorthand) in Hrun by done.
    destruct (py_assert _ _); cbn [mbind py_bind] in Hrun; [|done].
    destruct (smart_result env arr shorthand []) as [result|] eqn:Hres;
      cbn [mbind py_bind] in Hrun; [|done].
    destruct (py_assert _ _); cbn [mbind py_bind] in Hrun; [|done].
    injection Hrun as <-.
    eapply smart_result_subset; [| |exact Hres]; [|constructor].
    clear Hres. assoc_cases Hsmart; by repeat constructor. }
  destruct (split value) as [[|tok [|]]|] eqn:Hsplit;
    try (unfold process_property in Hrun; rewrite Hsplit in Hrun;
         cbn [mbind py_bind] in Hrun; rewrite ?Hall, ?Hdir, ?Hsmart in Hrun;
         cbn in Hrun; done).
  rewrite (process_property_plain env key value tok) in Hrun by done.
  destruct (in_style_attrs env key) eqn:Hcan; [|done].
  cbn [py_assert mbind py_bind] in Hrun.
  destruct (is_valid env key tok) as [[]|]; cbn [py_assert mbind py_bind] in Hrun;
    [|done..].
  injection Hrun as <-. repeat constructor. cbn. unfold canonical_or_dir.
  by rewrite <- (in_style_attrs_str_in env), Hcan.
Qed.

End Passes.

(** ** The loop of [process_input] *)

Section Loop.
Context (env : Env).

Let canonical (k : string) : Prop := in_style_attrs env k = true.

Lemma inner_keys (P : string → Prop) (d : list (string * string)) (done0 : dict)
    (log : list string) (done' : dict) (log' : list string) :
  (∀ (key value : string) (items : dict),
     In (key, value) d → process_property env key value = Return items →
     Forall P (keys items)) →
  Forall P (keys done0) →
  inner env d done0 log = Return (done', log') → Forall P (keys done').
Proof.
  revert done0 log. induction d as [|[key value] d IH]; intros done0 log Hd Hdone; cbn.
  - by intros [= <- <-].
  - destruct (process_property env key value) as [items|[[arg0|]| | | | |]] eqn:E;
      try done.
    + apply IH; [intros ? ? ? ?; apply Hd; by right|].
      apply dict_update_keys; [done|]. apply (Hd key value); [by left|done].
    + apply IH; [intros ? ? ? ?; apply Hd; by right|done].
Qed.

(** A pass over a dictionary of canonical keys is the last one. *)
Lemma loop_canonical (done0 : dict) (log : list string) (fuel : nat) :
  Forall canonical (keys done0) →
  process_input_loop env (S fuel) done0 log = Some (Return (dict_of_items done0, log)).
Proof.
  intros H%Forall_keys. cbn.
  by rewrite (filter_all_true _ _ H), (filter_none_true _ _ H).
Qed.

(** After the declarations of the input the loop makes two passes at most. *)
Lemma loop_two_passes (done0 : dict) (log : list string) :
  Forall (λ k, canonical_or_dir k = true) (keys done0) →
  ∃ r : py (dict * list string),
    (∀ fuel : nat, process_input_loop env (2 + fuel) done0 log = Some r)
    ∧ ∀ (done' : dict) (log' : list string),
        r = Return (done', log') → Forall canonical (keys done').
Proof.
  intros Hdone. cbn [process_input_loop Nat.add group_by_bool].
  set (_done := List.filter (λ item, in_style_attrs env item.1) done0).
  set (todo := List.filter (λ item, negb (in_style_attrs env item.1)) done0).
  assert (Forall canonical (keys (dict_of_items _done))) as Hcan
    by apply dict_of_items_keys, (filter_keys_true (in_style_attrs env)).
  destruct (is_nil todo).
  { eexists. split; [done|]. by intros ? ? [= <- <-]. }
  destruct (inner env todo (dict_of_items _done) log) as [[done1 log1]|e] eqn:E.
  2:{ eexists. split; [done|]. done. }
  assert (Forall canonical (keys done1)) as Hcan1.
  { apply (inner_keys canonical _ _ _ _ _ ) in E; [done| |done].
    intros key value items Hin Hrun.
    apply filter_In in Hin as [Hin Hnot]. cbn [fst] in Hnot.
    apply Forall_keys in Hdone. rewrite Forall_forall in Hdone.
    apply list_elem_of_In, Hdone in Hin. cbn [fst] in Hin.
    unfold canonical_or_dir in Hin.
    rewrite <- (in_style_attrs_str_in env) in Hin.
    apply negb_true_iff in Hnot. rewrite Hnot, orb_false_l in Hin.
    destruct (assoc key dir_shorthands) as [fstring|] eqn:Hdir; [|done].
    by apply (dir_shorthand_keys env key fstring value). }
  eexists. split.
  - intros fuel. by apply loop_canonical.
  - intros ? ? [= <- <-]. by apply dict_of_items_keys.
Qed.

End Loop.

(** C9. Termination of the re-expansion loop. For every list of
    declarations [process_input] ends within two passes of its loop: with
    fuel for two passes it has a result, more fuel gives the same result,
    and when the result is a dictionary every key of it is canonical, the
    non-canonical part being empty. The keys that an expansion leaves to
    expand are keys of [dir_shorthands], and these expand to canonical keys. *)
Theorem process_input_terminates (env : Env) (d : list (string * string)) :
  ∃ r : py (dict * list string),
    (∀ fuel : nat, process_input env (2 + fuel) d = Some r)
    ∧ ∀ (done' : dict) (log' : list string),
        r = Return (done', log') →
        Forall (λ k, in_style_attrs env k = true) (keys done').
Proof.
  unfold process_input.
  destruct (inner env d [] []) as [[done0 log]|e] eqn:E.
  - apply loop_two_passes.
    apply (inner_keys env _ d [] [] done0 log); [|constructor|done].
    intros key value items _. apply process_property_keys.
  - eexists. split; [done|]. done.
Qed.

Lemma process_input_terminates_witness :
  ∃ (done' : dict) (log' : list string),
    process_input Sample.env 2 [("border", "2px solid red"); ("margin", "1px 2px 3px 4px 5px")]
    = Some (Return (done', log'))
    ∧ Forall (λ k, in_style_attrs Sample.env k = true) (keys done').
Proof.
  destruct (process_input_terminates Sample.env
              [("border", "2px solid red"); ("margin", "1px 2px 3px 4px 5px")])
    as (r & Hr & Hkeys).
  specialize (Hr 0%nat). vm_compute in Hr. injection Hr as <-.
  eexists _, _. split; [reflexivity|]. eapply Hkeys. reflexivity.
Defined.

(** ** Dictionaries with distinct keys *)

Lemma dict_set_fresh (k v : string) (d : dict) :
  ¬ In k (keys d) → dict_set k v d = d ++ [(k, v)].
Proof.
  induction d as [|[k' v'] d IH]; cbn; intros Hk; [done|].
  destruct (String.eqb_spec k' k) as [->|Hne]; [destruct Hk; by left|].
  rewrite IH; [done|]. intros ?. apply Hk. by right.
Qed.

Lemma dict_update_distinct (d : dict) (items : list (string * string)) :
  NoDup (keys (d ++ items)) → dict_update d items = d ++ items.
Proof.
  revert d. induction items as [|[k v] items IH]; intros d Hnd; cbn.
  - by rewrite app_nil_r.
  - change (fold_left _ items (dict_set k v d)) with (dict_update (dict_set k v d) items).
    assert (¬ In k (keys d)) as Hk.
    { unfold keys in Hnd. rewrite fmap_app in Hnd. apply NoDup_app in Hnd as (_ & Hnd & _).
      intros Hin. apply (Hnd k); [by apply list_elem_of_In|]. cbn. by left. }
    rewrite (dict_set_fresh _ _ _ Hk). rewrite IH; rewrite <- app_assoc; done.
Qed.

Lemma dict_of_items_distinct (d : dict) : NoDup (keys d) → dict_of_items d = d.
Proof. intros H. by apply (dict_update_distinct []). Qed.

Lemma dict_set_NoDup (k v : string) (d : dict) :
  NoDup (keys d) → NoDup (keys (dict_set k v d)).
Proof.
  induction d as [|[k' v'] d IH]; cbn; intros Hnd.
  - repeat constructor. by intros ?%elem_of_nil.
  - inversion_clear Hnd as [|? ? Hk' Hd].
    destruct (String.eqb_spec k' k) as [->|Hne]; cbn; constructor; auto.
    intros Hin. apply Hk'. apply list_elem_of_In in Hin. apply list_elem_of_In.
    revert Hin. clear -Hne. induction d as [|[k2 v2] d IH]; cbn.
    + intros [?|[]]. by subst.
    + destruct (String.eqb_spec k2 k) as [->|]; cbn; intros [?|?]; auto.
  Qed.

Lemma dict_update_NoDup (d : dict) (items : list (string * string)) :
  NoDup (keys d) → NoDup (keys (dict_update d items)).
Proof.
  revert d. induction items as [|[k v] items IH]; intros d Hd; [done|].
  cbn. apply IH. by apply dict_set_NoDup.
Qed.

Lemma dict_of_items_NoDup (items : list (string * string)) :
  NoDup (keys (dict_of_items items)).
Proof. apply dict_update_NoDup. constructor. Qed.

Lemma dict_of_items_idemp (items : list (string * string)) :
  dict_of_items (dict_of_items items) = dict_of_items items.
Proof. apply dict_of_items_distinct, dict_of_items_NoDup. Qed.

(** ** Declarations that [is_valid] accepts *)

Section Accepted.
Context (env : Env).

Lemma process_property_accepted (key value : string) :
  accepted_declaration env (key, value) →
  process_property env key value = Return [(key, value)].
Proof.
  intros (Hkey & Htoken & Hvalid). cbn in Hkey, Htoken, Hvalid.
  pose proof Hkey as (Hall & Hdir & Hsmart & _)%canonical_plain%plain_name_inv.
  rewrite (process_property_plain env key value value) by (done || by apply split_token).
  by rewrite Hkey, Hvalid.
Qed.

Lemma inner_accepted (d : list (string * string)) (done0 : dict) (log : list string) :
  Forall (accepted_declaration env) d →
  inner env d done0 log = Return (dict_update done0 d, log).
Proof.
  intros Hd. revert done0. induction Hd as [|[key value] d Hkv _ IH]; intros done0.
  - done.
  - rewrite (inner_expanded env key value d done0 log [(key, value)])
      by by apply process_property_accepted.
    by rewrite IH.
Qed.

(** A registered keyword that the acceptor does not take, for a property
    whose name is not one of its keywords: [is_valid] rejects it, and the
    declaration is reported and dropped. *)
Lemma registered_keyword_rejected (name value : string) (attr : StyleAttr)
    (d : list (string * string)) (done0 : dict) (log : list string) :
  assoc name (style_attrs env) = Some attr → is_token value = true →
  in_dict name (kws attr) = false → accept env (acc attr) value ∅ = Return None →
  inner env ((name, value) :: d) done0 log
  = inner env d done0 (log_error log (report "Invalid Value" name value)).
Proof.
  intros Hattr Htoken Hname Hacc. apply invalid_value_is_skipped; [|done|].
  - unfold in_style_attrs. by rewrite Hattr.
  - by rewrite (is_valid_canonical env name value attr Hattr), Hname, Hacc.
Qed.

End Accepted.

(** C8. Expansion of a canonical set is not a no-op: a registered keyword
    is dropped. The declaration [display: block] is canonical, [display]
    being a registered property and [block] one token and one of its
    registered keywords, which [convert] gives its value; and for every
    configuration [process_input] of this one declaration returns the empty
    dictionary and reports [Invalid Value]. The same holds for every
    registered property whose name is not among its own keywords, and every
    keyword of it that is one token and that the acceptor does not take:
    [is_valid] looks for the name of the property, not for the value, among
    the keywords. *)
Theorem canonical_keyword_is_dropped (env : Env) :
  (∀ fuel : nat,
     canonical_declaration env ("display", "block")
     ∧ process_input env (1 + fuel) [("display", "block")]
       = Some (Return ([], ["CSS: Invalid Value (display: block)"])))
  ∧ (∀ (name value : string) (attr : StyleAttr) (kw : CompValue) (fuel : nat),
       assoc name (style_attrs env) = Some attr →
       is_token value = true →
       kws attr !! value = Some kw →
       in_dict name (kws attr) = false →
       accept env (acc attr) value ∅ = Return None →
       canonical_declaration env (name, value)
       ∧ process_input env (1 + fuel) [(name, value)]
         = Some (Return ([], [report "Invalid Value" name value]))).
Proof.
  assert (∀ (name value : string) (attr : StyleAttr) (kw : CompValue) (fuel : nat),
            assoc name (style_attrs env) = Some attr →
            is_token value = true →
            kws attr !! value = Some kw →
            in_dict name (kws attr) = false →
            accept env (acc attr) value ∅ = Return None →
            canonical_declaration env (name, value)
            ∧ process_input env (1 + fuel) [(name, value)]
              = Some (Return ([], [report "Invalid Value" name value]))) as Hgen.
  { intros name value attr kw fuel Hattr Htoken Hkw Hname Hacc. split.
    - exists attr. cbn [fst snd]. repeat split; [done..|].
      exists kw. unfold convert. by rewrite Hkw.
    - unfold process_input.
      rewrite (registered_keyword_rejected env name value attr [] [] []) by done.
      cbn [inner]. by rewrite loop_canonical by constructor. }
  split; [|exact Hgen].
  intros fuel.
  apply (Hgen "display" "block"
           (StyleAttr_init "inline" (set2dict ["inline"; "block"; "none"]) acc_noop None)
           (Str "block") fuel); reflexivity.
Qed.

Lemma canonical_keyword_is_dropped_witness :
  (canonical_declaration Sample.env ("width", "auto")
   ∧ process_input Sample.env 1 [("width", "auto")]
     = Some (Return ([], ["CSS: Invalid Value (width: auto)"])))
  ∧ (canonical_declaration Sample.env ("display", "block")
     ∧ process_input Sample.env 1 [("display", "block")]
       = Some (Return ([], ["CSS: Invalid Value (display: block)"]))).
Proof.
  destruct (canonical_keyword_is_dropped Sample.env) as [Hdisplay Hgen].
  split.
  - apply (Hgen "width" "auto" AALP Auto 0%nat); reflexivity.
  - apply (Hdisplay 0%nat).
Defined.

(** X27. Declarations that [is_valid] accepts are a fixed point. For every
    list of declarations whose keys are registered properties and whose
    values are single tokens that [is_valid] accepts, [process_input]
    returns in one pass of its loop the dictionary of these very
    declarations, with nothing reported; when the keys of the list are
    distinct this is the list itself. *)
Theorem accepted_input_is_fixed_point (env : Env) (d : list (string * string)) :
  Forall (accepted_declaration env) d →
  (∀ fuel : nat, process_input env (1 + fuel) d = Some (Return (dict_of_items d, [])))
  ∧ (NoDup (keys d) →
     ∀ fuel : nat, process_input env (1 + fuel) d = Some (Return (d, []))).
Proof.
  intros Hd.
  assert (∀ fuel : nat,
            process_input env (1 + fuel) d = Some (Return (dict_of_items d, []))) as H.
  { intros fuel. unfold process_input. rewrite (inner_accepted env d [] [] Hd).
    fold (dict_of_items d). rewrite loop_canonical.
    - by rewrite dict_of_items_idemp.
    - apply dict_of_items_keys, Forall_keys.
      eapply Forall_impl; [exact Hd|]. by intros item (? & _). }
  split; [done|]. intros Hnd fuel. by rewrite H, dict_of_items_distinct.
Qed.

Lemma accepted_input_is_fixed_point_witness :
  process_input Sample.env 1
    [("color", "rgb(1,2,3)"); ("width", "10px"); ("font-weight", "bolder")]
  = Some (Return ([("color", "rgb(1,2,3)"); ("width", "10px"); ("font-weight", "bolder")],
                  [])).
Proof.
  destruct (accepted_input_is_fixed_point Sample.env
              [("color", "rgb(1,2,3)"); ("width", "10px"); ("font-weight", "bolder")])
    as [_ H].
  - repeat constructor.
  - apply H. apply (bool_decide_unpack (NoDup ["color"; "width"; "font-weight"])).
    vm_compute. exact I.
Defined.

(** * Further properties *)

(** ** The tokens of [split] *)

Lemma append_assoc (s t u : string) : (s +:+ t) +:+ u = s +:+ t +:+ u.
Proof.
  induction s as [|a s IH]; [reflexivity|].
  change (String a ((s +:+ t) +:+ u) = String a (s +:+ t +:+ u)). by rewrite IH.
Qed.

Lemma str_join0_snoc (l : list string) (s : string) :
  str_join0 (l ++ [s]) = str_join0 l +:+ s.
Proof.
  induction l as [|t l IH].
  - cbn. by rewrite append_empty.
  - change (t +:+ str_join0 (l ++ [s]) = (t +:+ str_join0 l) +:+ s).
    by rewrite IH, append_assoc.
Qed.

Lemma split_loop_concat (s : string) (rec : bool) (result : list string)
    (curr_string : string) (brackets : nat) (arr : list string) :
  (rec = false → curr_string = EmptyString) →
  split_loop s rec result curr_string brackets = Return arr →
  str_join0 arr = str_join0 result +:+ curr_string +:+ remove_whitespace s.
Proof.
  revert rec result curr_string brackets.
  induction s as [|c s IH]; intros rec result curr_string brackets Hrec Hrun.
  - cbn in Hrun. injection Hrun as <-. cbn [remove_whitespace]. rewrite append_empty.
    destruct rec; [apply str_join0_snoc|]. by rewrite Hrec, append_empty.
  - cbn [split_loop remove_whitespace] in Hrun |- *.
    destruct (isspace c) eqn:Ew; cbn [negb] in Hrun.
    + rewrite andb_true_r in Hrun.
      destruct (rec && (brackets =? 0)%nat) eqn:Esplit;
        repeat match type of Hrun with
               | context [Ascii.eqb c ?x] => destruct (Ascii.eqb c x)
               | context [match brackets with _ => _ end] => destruct brackets
               end;
        try discriminate; apply IH in Hrun; try done;
        rewrite Hrun, ?str_join0_snoc, ?append_assoc; reflexivity.
    + rewrite andb_false_r in Hrun.
      repeat match type of Hrun with
             | context [Ascii.eqb c ?x] => destruct (Ascii.eqb c x)
             | context [match brackets with _ => _ end] => destruct brackets
             end;
        try discriminate; apply IH in Hrun; try done;
        by rewrite Hrun, append_char.
Qed.

Lemma split_loop_tokens (s : string) (rec : bool) (result : list string)
    (curr_string : string) (brackets : nat) (arr : list string) :
  Forall (λ t, is_token t = true) result →
  (∀ t, token_from brackets t = true → token_from 0 (curr_string +:+ t) = true) →
  split_loop s rec result curr_string brackets = Return arr →
  Forall (λ t, is_token t = true) arr.
Proof.
  revert rec result curr_string brackets.
  induction s as [|c s IH]; intros rec result curr_string brackets Hres Hcurr Hrun.
  - cbn in Hrun. injection Hrun as <-. destruct rec; [|done].
    apply Forall_app. split; [done|]. repeat constructor.
    unfold is_token. rewrite <- (append_empty curr_string). by apply Hcurr.
  - cbn [split_loop] in Hrun. destruct (isspace c) eqn:Ew; cbn [negb] in Hrun.
    + assert (Ascii.eqb c "(" = false) as E1
        by (destruct (Ascii.eqb_spec c "(") as [->|]; [discriminate|done]).
      assert (Ascii.eqb c ")" = false) as E2
        by (destruct (Ascii.eqb_spec c ")") as [->|]; [discriminate|done]).
      rewrite E1, E2, andb_true_r in Hrun.
      destruct rec; cbn [andb] in Hrun; [|by eapply IH].
      destruct (Nat.eqb_spec brackets 0) as [->|]; [|by eapply IH].
      eapply IH; [| |exact Hrun]; [|done].
      apply Forall_app. split; [done|]. repeat constructor.
      unfold is_token. rewrite <- (append_empty curr_string). by apply Hcurr.
    + rewrite andb_false_r in Hrun.
      assert (∀ t,
        (if Ascii.eqb c "(" then token_from (S brackets) t
         else if Ascii.eqb c ")" then
           match brackets with 0 => false | S b => token_from b t end
         else token_from brackets t) = true →
        token_from 0 ((curr_string +:+ String c EmptyString) +:+ t) = true) as Hstep.
      { intros t Ht. rewrite append_char. apply Hcurr. cbn [token_from].
        by rewrite Ew, Ht. }
      destruct (Ascii.eqb c "("); [by eapply IH; [| |exact Hrun]; [|intros; apply Hstep]|].
      destruct (Ascii.eqb c ")").
      * destruct brackets; [done|]. by eapply IH; [| |exact Hrun]; [|intros; apply Hstep].
      * by eapply IH; [| |exact Hrun]; [|intros; apply Hstep].
Qed.

Lemma split_loop_closes (s : string) (rec : bool) (result : list string)
    (curr_string : string) (brackets : nat) :
  if closes_ok brackets s
  then ∃ arr, split_loop s rec result curr_string brackets = Return arr
  else split_loop s rec result curr_string brackets = Raise (AssertionError None).
Proof.
  revert rec result curr_string brackets.
  induction s as [|c s IH]; intros rec result curr_string brackets; cbn [closes_ok split_loop].
  - by eexists.
  - destruct (rec && (brackets =? 0)%nat && isspace c), (negb (isspace c));
      destruct (Ascii.eqb c "("); try apply IH;
      destruct (Ascii.eqb c ")"); try apply IH;
      destruct brackets; try done; apply IH.
Qed.

(** X1. The tokens that [split] returns are single tokens: none has
    whitespace or an unmatched closing parenthesis, so that [split] of a token
    is that token again. The values that one expansion hands to the next one
    are therefore split into themselves. *)
Theorem split_tokens_stable (value : string) (arr : list string) :
  split value = Return arr →
  Forall (λ t, is_token t = true ∧ split t = Return [t]) arr.
Proof.
  intros Hrun.
  assert (Forall (λ t, is_token t = true) arr) as H.
  { eapply split_loop_tokens; [| |exact Hrun]; [constructor|done]. }
  eapply Forall_impl; [exact H|]. intros t Ht. split; [done|by apply split_token].
Qed.

Lemma split_tokens_stable_witness :
  Forall (λ t, is_token t = true ∧ split t = Return [t])
    ["rgb(1,2,3)"; "solid"; "calc(1px+(2px"].
Proof.
  apply (split_tokens_stable "rgb(1, 2, 3) solid  calc(1px + (2px"). reflexivity.
Defined.

(** X2. [split] loses nothing but whitespace: its tokens, one after the
    other, are the value without its whitespace characters (also those inside
    parentheses). *)
Theorem split_keeps_characters (value : string) (arr : list string) :
  split value = Return arr → str_join0 arr = remove_whitespace value.
Proof.
  intros Hrun. apply split_loop_concat in Hrun; [|done]. exact Hrun.
Qed.

Lemma split_keeps_characters_witness :
  str_join0 ["rgb(1,2,3)"; "solid"] = remove_whitespace "rgb(1, 2, 3) solid".
Proof. apply split_keeps_characters. reflexivity. Defined.

(** X3. [split] fails in one way only: it returns when no parenthesis of the
    value is closed that was not opened, and raises the [AssertionError] of its
    bare [assert] otherwise; parentheses left open are accepted. *)
Theorem split_fails_on_unmatched_closing (value : string) :
  (closes_ok 0 value = true → ∃ arr, split value = Return arr)
  ∧ (closes_ok 0 value = false → split value = Raise (AssertionError None)).
Proof.
  pose proof (split_loop_closes value true [] EmptyString 0) as H. fold (split value) in H.
  split; intros E; by rewrite E in H.
Qed.

Lemma split_fails_on_unmatched_closing_witness :
  (∃ arr, split "rgb(1, (2" = Return arr)
  ∧ split "a) (b" = Raise (AssertionError None).
Proof.
  split.
  - apply (split_fails_on_unmatched_closing "rgb(1, (2"). reflexivity.
  - apply (split_fails_on_unmatched_closing "a) (b"). reflexivity.
Defined.

(** ** Declarations that [process_input] reports *)

Lemma inner_log (env : Env) (d : list (string * string)) (done0 : dict) (log : list string) :
  inner env d done0 log
  = match inner env d done0 [] with
    | Return (dn, l) => Return (dn, log ++ l)
    | Raise e => Raise e
    end.
Proof.
  revert done0 log. induction d as [|[key value] d IH]; intros done0 log.
  - cbn. by rewrite app_nil_r.
  - cbn [inner]. destruct (process_property env key value) as [items|[[arg0|]| | | | |]];
      try done.
    unfold log_error. rewrite (IH done0 (log ++ _)), (IH done0 ([] ++ _)).
    destruct (inner env d done0 []) as [[dn l]|]; [|done].
    by rewrite <- app_assoc.
Qed.

Lemma loop_log (env : Env) (fuel : nat) (done0 : dict) (log : list string) :
  process_input_loop env fuel done0 log
  = match process_input_loop env fuel done0 [] with
    | Some (Return (dn, l)) => Some (Return (dn, log ++ l))
    | Some (Raise e) => Some (Raise e)
    | None => None
    end.
Proof.
  revert done0 log. induction fuel as [|fuel IH]; intros done0 log; [done|].
  cbn [process_input_loop group_by_bool].
  destruct (is_nil _); [by rewrite app_nil_r|].
  rewrite (inner_log env _ _ log).
  destruct (inner env _ _ []) as [[dn l]|]; [|done].
  rewrite (IH dn (log ++ l)), (IH dn l).
  destruct (process_input_loop env fuel dn []) as [[[dn' l']|]|]; try done.
  by rewrite <- app_assoc.
Qed.

(** X4. What [process_input] does recover from. A declaration for which
    [process_property] fails an [assert] that has a message (too many
    values, invalid key, unknown property, invalid value) leaves the
    dictionary that [process_input] returns, or the exception it raises, as
    if the declaration were not in the list, wherever it stands in it. *)
Theorem reported_declaration_is_local (env : Env) (key value arg0 : string)
    (pre rest : list (string * string)) (fuel : nat) :
  process_property env key value = Raise (AssertionError (Some arg0)) →
  result_dict (process_input env fuel (pre ++ (key, value) :: rest))
  = result_dict (process_input env fuel (pre ++ rest)).
Proof.
  intros Hraise. unfold process_input. rewrite !inner_app.
  destruct (inner env pre [] []) as [[done0 log]|]; [|done]. cbn [mbind py_bind].
  rewrite (inner_reported env key value rest done0 log arg0 Hraise).
  rewrite (inner_log env rest done0 (log_error _ _)), (inner_log env rest done0 log).
  destruct (inner env rest done0 []) as [[dn l]|]; [|done].
  rewrite (loop_log env fuel dn (_ ++ l)), (loop_log env fuel dn (log ++ l)).
  by destruct (process_input_loop env fuel dn []) as [[[dn' l']|]|].
Qed.

Lemma reported_declaration_is_local_witness :
  result_dict (process_input Sample.env 2
                 [("margin", "1px"); ("colour", "red"); ("border-color", "blue")])
  = result_dict (process_input Sample.env 2 [("margin", "1px"); ("border-color", "blue")]).
Proof.
  apply (reported_declaration_is_local Sample.env "colour" "red" "Unknown Property"
           [("margin", "1px")] [("border-color", "blue")] 2).
  reflexivity.
Defined.

(** ** Lookup in a dictionary after updates *)

Lemma assoc_dict_set (k k' v : string) (d : dict) :
  assoc k (dict_set k' v d) = if String.eqb k' k then Some v else assoc k d.
Proof.
  induction d as [|[k2 v2] d IH]; [done|]. cbn [dict_set].
  destruct (String.eqb_spec k2 k') as [->|Hne]; cbn [assoc].
  - by destruct (String.eqb k' k).
  - rewrite IH. destruct (String.eqb_spec k2 k) as [->|]; [|done].
    by rewrite (eqb_ne _ _ (not_eq_sym Hne)).
Qed.



(** ** The property [all] *)





(** ** Directional shorthands in [process_input] *)

Lemma dir_longhands_canonical (env : Env) (key fstring side : string) :
  assoc key dir_shorthands = Some fstring → In side directions →
  in_style_attrs env (format1 fstring side) = true.
Proof.
  intros Hkey Hin. rewrite in_style_attrs_str_in.
  assoc_cases Hkey; destruct Hin as [<-|[<-|[<-|[<-|[]]]]]; reflexivity.
Qed.

Lemma dir_longhands_NoDup (key fstring : string) (l : list (string * string)) :
  assoc key dir_shorthands = Some fstring → keys l = directions →
  NoDup (keys ((λ kv, (format1 fstring kv.1, kv.2)) <$> l)).
Proof.
  intros Hkey Hl. unfold keys in *. rewrite <- list_fmap_compose.
  change (NoDup ((format1 fstring ∘ fst) <$> l)).
  rewrite (list_fmap_compose fst (format1 fstring)), Hl.
  assoc_cases Hkey;
    match goal with |- NoDup ?l => apply (bool_decide_unpack (NoDup l)) end;
    vm_compute; exact I.
Qed.

Lemma process_input_dir_shorthand (env : Env) (key fstring value top : string)
    (arr : list string) (fuel : nat) :
  assoc key dir_shorthands = Some fstring → split value = Return arr →
  arr !! 0%nat = Some top → (List.length arr ≤ 4)%nat →
  process_input env (1 + fuel) [(key, value)]
  = Some (Return ((λ kv, (format1 fstring kv.1, kv.2)) <$> side_values top arr, [])).
Proof.
  intros Hkey Hsplit Htop Hlen. unfold process_input.
  pose proof (dir_shorthand_expands env key fstring value arr Hkey Hsplit top Htop Hlen)
    as Hrun.
  rewrite (inner_expanded env key value [] [] [] _ Hrun). cbn [inner].
  rewrite loop_canonical.
  - fold (dict_of_items ((λ kv, (format1 fstring kv.1, kv.2)) <$> side_values top arr)).
    rewrite dict_of_items_idemp, dict_of_items_distinct; [done|].
    by apply (dir_longhands_NoDup key).
  - apply dict_update_keys; [constructor|].
    by apply (dir_shorthand_keys env key fstring value).
Qed.

(** X6. The values of a directional shorthand are not validated. Whatever
    its tokens, at most four, a declaration of [margin], [padding], [inset],
    [border-width], [border-color] or [border-style] is expanded into its
    four longhands without a report, in [inner] after any declarations and
    so in the result of [process_input]: [is_valid] never sees them. *)
Theorem directional_values_are_not_validated (env : Env) (key fstring value top : string)
    (arr : list string) :
  assoc key dir_shorthands = Some fstring → split value = Return arr →
  arr !! 0%nat = Some top → (List.length arr ≤ 4)%nat →
  let longhands := (λ kv, (format1 fstring kv.1, kv.2)) <$> side_values top arr in
  (∀ (d : list (string * string)) (done0 : dict) (log : list string),
     inner env ((key, value) :: d) done0 log
     = inner env d (dict_update done0 longhands) log)
  ∧ (∀ fuel : nat,
       process_input env (1 + fuel) [(key, value)] = Some (Return (longhands, []))).
Proof.
  intros Hkey Hsplit Htop Hlen longhands. split.
  - intros d done0 log. apply inner_expanded.
    by apply (dir_shorthand_expands env key fstring value arr).
  - intros fuel. by apply (process_input_dir_shorthand env key fstring value top arr).
Qed.

Lemma directional_values_are_not_validated_witness :
  process_input Sample.env 1 [("margin", "no length")]
  = Some (Return ([("margin-top", "no"); ("margin-right", "length");
                   ("margin-bottom", "no"); ("margin-left", "length")], [])).
Proof.
  apply (directional_values_are_not_validated Sample.env "margin" "margin-{}"
           "no length" "no" ["no"; "length"]); [reflexivity..|cbn; lia].
Defined.

(** X7. [process_input] is not idempotent. A one-token value that
    [is_valid] rejects for each of the four longhands of a directional
    shorthand is in every entry of the result of the shorthand; given that
    result as its input, [process_input] reports the four entries and returns
    the empty dictionary. *)
Theorem process_input_not_idempotent (env : Env) (key fstring value : string)
    (fuel : nat) :
  assoc key dir_shorthands = Some fstring → is_token value = true →
  (∀ side, In side directions →
     is_valid env (format1 fstring side) value = Return false) →
  ∃ result : dict,
    process_input env (1 + fuel) [(key, value)] = Some (Return (result, []))
    ∧ keys result = format1 fstring <$> directions
    ∧ process_input env (1 + fuel) result
      = Some (Return ([], (λ side, report "Invalid Value" (format1 fstring side) value)
                            <$> directions)).
Proof.
  intros Hkey Htoken Hvalid. eexists. split; [|split].
  - apply (process_input_dir_shorthand env key fstring value value [value]);
      [done|by apply split_token|done|cbn; lia].
  - reflexivity.
  - unfold process_input. cbn [side_values lookup list_lookup default fmap list_fmap fst snd].
    rewrite !invalid_value_is_skipped;
      try done; try (apply Hvalid; cbn; tauto);
      try (apply (dir_longhands_canonical env key); [done|cbn; tauto]).
Qed.

Lemma process_input_not_idempotent_witness :
  ∃ result : dict,
    process_input Sample.env 1 [("padding", "wide")] = Some (Return (result, []))
    ∧ keys result = format1 "padding-{}" <$> directions
    ∧ process_input Sample.env 1 result
      = Some (Return ([], (λ side, report "Invalid Value" (format1 "padding-{}" side) "wide")
                            <$> directions)).
Proof.
  apply (process_input_not_idempotent Sample.env "padding" "padding-{}" "wide" 0);
    [reflexivity..|].
  intros side [<-|[<-|[<-|[<-|[]]]]]; reflexivity.
Defined.

(** ** Properties that take keywords only *)

(** X8. A property that takes keywords only cannot be declared. For
    [display], [position], [box-sizing] and the four [border-<side>-style]
    (with [noop] as modelled, accepting nothing), [process_property] raises
    for every value, and for a value of one token it is the assertion
    [Invalid Value]: [is_valid] looks up the name of the property, not the
    value, among the keywords. *)
Theorem keyword_properties_cannot_be_declared (env : Env) (name value : string) :
  In name (["display"; "position"; "box-sizing"] ++ bs_keys) →
  ∃ e : exn,
    process_property env name value = Raise e
    ∧ (is_token value = true → e = AssertionError (Some "Invalid Value")).
Proof.
  intros Hin.
  assert (in_style_attrs env name = true ∧ ∀ tok, is_valid env name tok = Return false)
    as [Hcan Hvalid].
  { destruct Hin as [<-|[<-|[<-|[<-|[<-|[<-|[<-|[]]]]]]]]; (split; [reflexivity|]);
      intros tok; eapply is_valid_keyword_property; reflexivity. }
  pose proof Hcan as (Hall & Hdir & Hsmart & _)%canonical_plain%plain_name_inv.
  destruct (split value) as [[|tok [|tok' arr]]|e] eqn:Hsplit.
  - by apply split_nonempty in Hsplit.
  - rewrite (process_property_plain env name value tok) by done.
    rewrite Hcan, Hvalid. eexists. split; [reflexivity|done].
  - unfold process_property. rewrite Hsplit. cbn [mbind py_bind].
    rewrite Hall, Hdir, Hsmart. eexists. split; [reflexivity|].
    intros Htoken%split_token. by rewrite Htoken in Hsplit.
  - unfold process_property. rewrite Hsplit. eexists. split; [reflexivity|].
    intros Htoken%split_token. by rewrite Htoken in Hsplit.
Qed.

Lemma keyword_properties_cannot_be_declared_witness :
  ∃ e : exn,
    process_property Sample.env "position" "absolute" = Raise e
    ∧ (is_token "absolute" = true → e = AssertionError (Some "Invalid Value")).
Proof.
  apply (keyword_properties_cannot_be_declared Sample.env "position" "absolute").
  cbn. tauto.
Defined.

(** ** Smart shorthands that miss a longhand *)

Lemma is_nil_app {A} (l1 l2 : list A) : is_nil (l1 ++ l2) = true → l1 = [] ∧ l2 = [].
Proof. by destruct l1, l2. Qed.

Lemma sym_diff_nil (a b : list string) :
  is_nil (sym_diff a b) = true → Forall (λ x, str_in x b = true) a.
Proof.
  intros [Ha _]%is_nil_app. induction a as [|x a IH]; [constructor|].
  cbn in Ha. destruct (str_in x b) eqn:E; [|done]. constructor; auto.
Qed.

Section SmartValid.
Context (env : Env).

(** Every key of the result of a smart shorthand has a value that
    [is_valid] accepts. *)
Let accepted (k : string) : Prop := ∃ v, is_valid env k v = Return true.

Lemma smart_keys_accepted (v : string) (shorthand : list string) (result result' : dict) :
  Forall accepted (keys result) →
  smart_keys env v shorthand result = Return result' → Forall accepted (keys result').
Proof.
  revert result. induction shorthand as [|k ks IH]; intros result Hres; cbn.
  - by intros [= <-].
  - destruct (is_valid env k v) as [[]|] eqn:E; cbn; try done.
    + apply IH. apply dict_set_keys; [by exists v|done].
    + by apply IH.
Qed.

Lemma smart_result_accepted (arr shorthand : list string) (result result' : dict) :
  Forall accepted (keys result) →
  smart_result env arr shorthand result = Return result' → Forall accepted (keys result').
Proof.
  revert result. induction arr as [|v vs IH]; intros result Hres; cbn.
  - by intros [= <-].
  - destruct (smart_keys env v shorthand result) as [r|] eqn:E; cbn; [|done].
    apply IH. by apply (smart_keys_accepted v shorthand result).
Qed.

(** A smart shorthand with a longhand that has no valid value never
    expands. *)
Lemma smart_needs_every_key (key value k : string) (shorthand : list string) :
  String.eqb key "all" = false → assoc key dir_shorthands = None →
  assoc key smart_shorthands = Some shorthand →
  In k shorthand → (∀ v, is_valid env k v = Return false) →
  ∃ e : exn, process_property env key value = Raise e.
Proof.
  intros Hall Hdir Hsmart Hk Hvalid.
  destruct (process_property env key value) as [items|e] eqn:E; [exfalso|by eexists].
  destruct (split value) as [arr|e] eqn:Hsplit;
    [|unfold process_property in E; by rewrite Hsplit in E].
  rewrite (process_property_smart env key value arr shorthand) in E by done.
  destruct (py_assert _ _); cbn [mbind py_bind] in E; [|done].
  destruct (smart_result env arr shorthand []) as [result|] eqn:Hres;
    cbn [mbind py_bind] in E; [|done].
  unfold py_assert in E.
  destruct (is_nil (sym_diff shorthand (keys result))) eqn:Hnil; [|done].
  apply sym_diff_nil in Hnil. rewrite Forall_forall in Hnil.
  apply list_elem_of_In, Hnil, str_in_In, list_elem_of_In in Hk.
  pose proof (smart_result_accepted arr shorthand [] result (List.Forall_nil _) Hres) as Hacc.
  rewrite Forall_forall in Hacc. destruct (Hacc _ Hk) as [v Hv].
  by rewrite Hvalid in Hv.
Qed.

End SmartValid.

(** X9. The shorthands [border-top], [border-right], [border-bottom] and
    [border-left] never expand. Whatever the value and the configuration,
    [process_property] raises: the result of a smart shorthand must hold
    each of its longhands, and [border-<side>-style] has no value that
    [is_valid] accepts. *)
Theorem side_border_shorthand_never_expands (env : Env) (side value : string) :
  In side directions →
  ∃ e : exn, process_property env ("border-" +:+ side) value = Raise e.
Proof.
  intros [<-|[<-|[<-|[<-|[]]]]].
  - apply (smart_needs_every_key env "border-top" value "border-top-style"
             ["border-top-width"; "border-top-style"; "border-top-color"]);
      [reflexivity..|right; by left|].
    intros v. eapply is_valid_keyword_property; reflexivity.
  - apply (smart_needs_every_key env "border-right" value "border-right-style"
             ["border-right-width"; "border-right-style"; "border-right-color"]);
      [reflexivity..|right; by left|].
    intros v. eapply is_valid_keyword_property; reflexivity.
  - apply (smart_needs_every_key env "border-bottom" value "border-bottom-style"
             ["border-bottom-width"; "border-bottom-style"; "border-bottom-color"]);
      [reflexivity..|right; by left|].
    intros v. eapply is_valid_keyword_property; reflexivity.
  - apply (smart_needs_every_key env "border-left" value "border-left-style"
             ["border-left-width"; "border-left-style"; "border-left-color"]);
      [reflexivity..|right; by left|].
    intros v. eapply is_valid_keyword_property; reflexivity.
Qed.

Lemma side_border_shorthand_never_expands_witness :
  ∃ e : exn, process_property Sample.env "border-top" "2px solid red" = Raise e.
Proof.
  apply (side_border_shorthand_never_expands Sample.env "top" "2px solid red").
  cbn. tauto.
Defined.

(** ** The values that a smart shorthand assigns *)

Section SmartAssoc.
Context (env : Env).

Lemma smart_keys_assoc (v k : string) (shorthand : list string) (result result' : dict) :
  smart_keys env v shorthand result = Return result' →
  assoc k result'
  = if str_in k shorthand && accepts env k v then Some v else assoc k result.
Proof.
  revert result. induction shorthand as [|k0 ks IH]; intros result; cbn [smart_keys].
  - by intros [= <-].
  - destruct (is_valid env k0 v) as [ok|] eqn:E; cbn [mbind py_bind]; [|done].
    intros Hrun. rewrite (IH _ Hrun).
    change (str_in k (k0 :: ks)) with (String.eqb k k0 || str_in k ks).
    destruct (String.eqb_spec k k0) as [->|Hne].
    + unfold accepts. rewrite E. destruct ok.
      * rewrite assoc_dict_set, String.eqb_refl. by destruct (str_in k0 ks).
      * by rewrite andb_false_r.
    + rewrite orb_false_l. destruct ok; [|done].
      by rewrite assoc_dict_set, (eqb_ne _ _ (not_eq_sym Hne)).
Qed.

Lemma smart_result_assoc (k : string) (arr shorthand : list string)
    (result result' : dict) :
  smart_result env arr shorthand result = Return result' →
  assoc k result'
  = if str_in k shorthand then last_accepted env k arr (assoc k result)
    else assoc k result.
Proof.
  revert result. induction arr as [|v vs IH]; intros result; cbn [smart_result].
  - intros [= <-]. by destruct (str_in k shorthand).
  - destruct (smart_keys env v shorthand result) as [r|] eqn:E; cbn [mbind py_bind]; [|done].
    intros Hrun. rewrite (IH _ Hrun), (smart_keys_assoc v k shorthand result r E).
    unfold last_accepted. cbn [fold_left].
    by destruct (str_in k shorthand).
Qed.

Lemma smart_keys_returns (v : string) (shorthand : list string) (result : dict) :
  (∃ result', smart_keys env v shorthand result = Return result')
  ↔ Forall (λ k, ∃ ok, is_valid env k v = Return ok) shorthand.
Proof.
  revert result. induction shorthand as [|k ks IH]; intros result; cbn [smart_keys].
  - split; [constructor|by eexists].
  - rewrite Forall_cons. destruct (is_valid env k v) as [ok|e]; cbn [mbind py_bind].
    + rewrite IH. split; [by eauto|by intros [_ ?]].
    + split; [by intros [? ?]|by intros [[? ?] _]].
Qed.

Lemma smart_result_returns (arr shorthand : list string) (result : dict) :
  (∃ result', smart_result env arr shorthand result = Return result')
  ↔ Forall (λ v, Forall (λ k, ∃ ok, is_valid env k v = Return ok) shorthand) arr.
Proof.
  revert result. induction arr as [|v vs IH]; intros result; cbn [smart_result].
  - split; [constructor|by eexists].
  - rewrite Forall_cons, <- (smart_keys_returns v shorthand result).
    destruct (smart_keys env v shorthand result) as [r|e]; cbn [mbind py_bind].
    + rewrite IH. split; [by eauto|by intros [_ ?]].
    + split; [by intros [? ?]|by intros [[? ?] _]].
Qed.

End SmartAssoc.

(** X10. What a smart shorthand assigns. When the comprehension
    [{k: v for v in arr for k in shorthand if is_valid(k, v)}] has a result,
    each longhand of the shorthand has in it the last token that [is_valid]
    accepts for it, and no entry when there is no such token; nothing else
    is in the result. A token that is valid for two longhands is given to
    both. *)
Theorem smart_shorthand_takes_last_accepted (env : Env) (arr shorthand : list string)
    (result : dict) :
  smart_result env arr shorthand [] = Return result →
  ∀ k : string,
    assoc k result
    = if str_in k shorthand then last_accepted env k arr None else None.
Proof. intros Hrun k. by rewrite (smart_result_assoc env k arr shorthand [] result Hrun). Qed.

Lemma smart_shorthand_takes_last_accepted_witness :
  assoc "border-color" [("border-color", "red"); ("border-style", "2px")]
  = if str_in "border-color" ["border-width"; "border-style"; "border-color"]
    then last_accepted Sample.env "border-color" ["blue"; "2px"; "red"] None else None.
Proof.
  apply (smart_shorthand_takes_last_accepted Sample.env ["blue"; "2px"; "red"]
           ["border-width"; "border-style"; "border-color"]).
  reflexivity.
Defined.

(** X11. The order in which the set of a smart shorthand is iterated does
    not matter for the values. With the same longhands in another order, or
    repeated, the comprehension has a result when it had one, and every name
    has the same value in both; only the order of the entries can differ. *)
Theorem smart_shorthand_order_independent (env : Env) (arr shorthand shorthand' : list string)
    (result : dict) :
  (∀ k, In k shorthand ↔ In k shorthand') →
  smart_result env arr shorthand [] = Return result →
  ∃ result' : dict,
    smart_result env arr shorthand' [] = Return result'
    ∧ ∀ k : string, assoc k result' = assoc k result.
Proof.
  intros Hsame Hrun.
  assert (∃ result', smart_result env arr shorthand' [] = Return result')
    as [result' Hrun'].
  { apply smart_result_returns.
    assert (∃ r, smart_result env arr shorthand [] = Return r) as H by eauto.
    apply smart_result_returns in H. eapply Forall_impl; [exact H|].
    intros v Hv. rewrite Forall_forall in *. intros k Hk.
    by apply Hv, list_elem_of_In, Hsame, list_elem_of_In. }
  exists result'. split; [done|]. intros k.
  rewrite (smart_result_assoc env k arr shorthand [] result Hrun),
    (smart_result_assoc env k arr shorthand' [] result' Hrun').
  assert (str_in k shorthand' = str_in k shorthand) as ->; [|done].
  apply eq_true_iff_eq. by rewrite !str_in_In.
Qed.

Lemma smart_shorthand_order_independent_witness :
  ∃ result' : dict,
    smart_result Sample.env ["2px"; "red"] ["border-color"; "border-width"; "border-style"] []
    = Return result'
    ∧ ∀ k : string,
        assoc k result' = assoc k [("border-style", "2px"); ("border-color", "red")].
Proof.
  apply (smart_shorthand_order_independent Sample.env ["2px"; "red"]
           ["border-width"; "border-style"; "border-color"]).
  - intros k. cbn. tauto.
  - reflexivity.
Defined.

(** ** The range of font weights *)

(** X12. [font_weight] keeps weights in their range. With a parent weight
    [p] such that [0 < p <= 1000], [font_weight] raises nothing, whatever
    the value, and a weight that it returns is again a number [w] such that
    [0 < w <= 1000]. *)
Theorem font_weight_stays_in_range (env : Env) (value : string)
    (p_style : StyleComputed) (p : Q) :
  p_style !! "font-weight" = Some (Number p) → (0 < p)%Q → (p <= 1000)%Q →
  ∃ r : option CompValue,
    font_weight env value p_style = Return r
    ∧ ∀ v, r = Some v → ∃ w : Q, v = Number w ∧ (0 < w)%Q ∧ (w <= 1000)%Q.
Proof.
  intros parent Hpos Hmax.
  assert (∀ w : Q, (0 < w)%Q → (w <= 1000)%Q →
          ∀ v, Some (Number w) = Some v → ∃ w', v = Number w' ∧ (0 < w')%Q ∧ (w' <= 1000)%Q)
    as Hin by (intros w ? ? v [= <-]; eauto).
  destruct (String.eqb_spec value "lighter") as [->|Hl];
    [|destruct (String.eqb_spec value "bolder") as [->|Hb]].
  - destruct (Qlt_le_dec p 100); [|destruct (Qlt_le_dec p 550); [|destruct (Qlt_le_dec p 700)]].
    + rewrite (lighter_below_100 env p_style p) by done. eauto.
    + rewrite (lighter_below_550 env p_style p) by done. eexists. split; [done|]. by apply Hin.
    + rewrite (lighter_below_700 env p_style p) by done. eexists. split; [done|]. by apply Hin.
    + rewrite (lighter_upto_1000 env p_style p) by done. eexists. split; [done|]. by apply Hin.
  - destruct (Qlt_le_dec p 350); [|destruct (Qlt_le_dec p 550); [|destruct (Qlt_le_dec p 900)]].
    + rewrite (bolder_below_350 env p_style p) by done. eexists. split; [done|]. by apply Hin.
    + rewrite (bolder_below_550 env p_style p) by done. eexists. split; [done|]. by apply Hin.
    + rewrite (bolder_below_900 env p_style p) by done. eexists. split; [done|]. by apply Hin.
    + rewrite (bolder_from_900 env p_style p) by done. eauto.
  - destruct (float env value) as [n|] eqn:Hf.
    + destruct (Qlt_le_dec 0 n) as [H0|H0]; [destruct (Qlt_le_dec 1000 n) as [H1|H1]|].
      * rewrite (literal_out_of_range env p_style p parent value n) by
          (try done; intros [_ ?%Qle_not_lt]; done).
        eexists. split; [done|]. by intros v [=].
      * rewrite (literal_in_range env p_style p parent value n) by done. eauto.
      * rewrite (literal_out_of_range env p_style p parent value n) by
          (try done; intros [?%Qlt_not_le _]; done).
        eexists. split; [done|]. by intros v [=].
    + rewrite (literal_not_a_number env p_style p parent value) by done.
      eexists. split; [done|]. by intros v [=].
Qed.

Lemma font_weight_stays_in_range_witness :
  ∃ r : option CompValue,
    font_weight Sample.env "lighter" {[ "font-weight" := Number 1000 ]} = Return r
    ∧ ∀ v, r = Some v → ∃ w : Q, v = Number w ∧ (0 < w)%Q ∧ (w <= 1000)%Q.
Proof.
  apply (font_weight_stays_in_range Sample.env "lighter" _ 1000);
    [apply lookup_singleton_eq|reflexivity|discriminate].
Defined.

(** X13. The relative weights bracket the weight of the parent. With a
    parent weight [p] of at most 1000, [lighter] and [bolder] both return a
    number, the one of [lighter] is at most [p] and the one of [bolder] is at
    least [p]. *)
Theorem relative_weights_bracket_parent (env : Env) (p_style : StyleComputed) (p : Q) :
  p_style !! "font-weight" = Some (Number p) → (p <= 1000)%Q →
  ∃ l b : Q,
    font_weight env "lighter" p_style = Return (Some (Number l))
    ∧ font_weight env "bolder" p_style = Return (Some (Number b))
    ∧ (l <= p)%Q ∧ (p <= b)%Q.
Proof.
  intros parent Hmax.
  assert (∃ l, font_weight env "lighter" p_style = Return (Some (Number l)) ∧ (l <= p)%Q)
    as (l & -> & Hl).
  { destruct (Qlt_le_dec p 100); [|destruct (Qlt_le_dec p 550); [|destruct (Qlt_le_dec p 700)]].
    - rewrite (lighter_below_100 env p_style p) by done. eexists. split; [done|]. apply Qle_refl.
    - rewrite (lighter_below_550 env p_style p) by done. eauto.
    - rewrite (lighter_below_700 env p_style p) by done. eexists. split; [done|].
      by apply Qle_trans with 550%Q.
    - rewrite (lighter_upto_1000 env p_style p) by done. eauto. }
  assert (∃ b, font_weight env "bolder" p_style = Return (Some (Number b)) ∧ (p <= b)%Q)
    as (b & -> & Hb).
  { destruct (Qlt_le_dec p 350); [|destruct (Qlt_le_dec p 550); [|destruct (Qlt_le_dec p 900)]].
    - rewrite (bolder_below_350 env p_style p) by done. eexists. split; [done|].
      apply Qlt_le_weak. by apply Qlt_trans with 350%Q.
    - rewrite (bolder_below_550 env p_style p) by done. eexists. split; [done|].
      apply Qlt_le_weak. by apply Qlt_trans with 550%Q.
    - rewrite (bolder_below_900 env p_style p) by done. eexists. split; [done|].
      by apply Qlt_le_weak.
    - rewrite (bolder_from_900 env p_style p) by done. eexists. split; [done|]. apply Qle_refl. }
  by exists l, b.
Qed.

Lemma relative_weights_bracket_parent_witness :
  ∃ l b : Q,
    font_weight Sample.env "lighter" {[ "font-weight" := Number 400 ]}
    = Return (Some (Number l))
    ∧ font_weight Sample.env "bolder" {[ "font-weight" := Number 400 ]}
      = Return (Some (Number b))
    ∧ (l <= 400)%Q ∧ (400 <= b)%Q.
Proof.
  apply (relative_weights_bracket_parent Sample.env _ 400);
    [apply lookup_singleton_eq|discriminate].
Defined.

(** ** [length] and [length_percentage] *)

(** X14. [length] is [length_percentage] without the percentages. The two
    have the same outcome, result or exception, for every value that
    [split_units] does not give the unit [%], whatever the [mult]: for one
    that it splits into a number and another unit, and for one at which it
    raises. *)
Theorem length_is_length_percentage_off_percent (env : Env) (value : string)
    (p_style : StyleComputed) (mult : option CompValue) :
  (∀ (num : Q) (unit : string),
     split_units env value = Return (num, unit) → unit ≠ "%" →
     length_percentage env value p_style mult = length env value p_style)
  ∧ (∀ e : exn,
       split_units env value = Raise e →
       length_percentage env value p_style mult = length env value p_style).
Proof.
  split.
  - intros num unit Hsplit Hunit.
    by rewrite (length_percentage_dimension env value num unit),
      (length_dimension env value num unit).
  - intros e Hsplit. unfold length_percentage, length. by rewrite Hsplit.
Qed.

Lemma length_is_length_percentage_off_percent_witness :
  length_percentage Sample.env "3px" ∅ None = length Sample.env "3px" ∅
  ∧ length_percentage Sample.env "wide" ∅ None = length Sample.env "wide" ∅.
Proof.
  destruct (length_is_length_percentage_off_percent Sample.env "3px" ∅ None) as [Hdim _].
  destruct (length_is_length_percentage_off_percent Sample.env "wide" ∅ None) as [_ Hraise].
  split.
  - apply (Hdim 3%Q "px"); [reflexivity|discriminate].
  - apply (Hraise AttributeError). reflexivity.
Defined.

(** ** The algebra of [join_styles] *)

Lemma join_value_assoc (v1 v2 v3 : Value) :
  (let v23 := if v3.2 && negb v2.2 then v3 else v2 in
   if v23.2 && negb v1.2 then v23 else v1)
  = (let v12 := if v2.2 && negb v1.2 then v2 else v1 in
     if v3.2 && negb v12.2 then v3 else v12).
Proof. destruct v1 as [? []], v2 as [? []], v3 as [? []]; reflexivity. Qed.

(** X15. [join_styles] is associative: joining three styles gives the
    same style however the two joins are nested. *)
Theorem join_styles_assoc (style1 style2 style3 : Style) :
  join_styles style1 (join_styles style2 style3)
  = join_styles (join_styles style1 style2) style3.
Proof.
  apply map_eq. intros k. rewrite !join_styles_lookup.
  destruct (style1 !! k) as [v1|], (style2 !! k) as [v2|], (style3 !! k) as [v3|];
    try done.
  f_equal. apply (join_value_assoc v1 v2 v3).
Qed.

(** X16. The empty style is a unit of [join_styles] on both sides, a style
    joined with itself is that style, and the keys of a join are the keys of
    the two styles. *)
Theorem join_styles_unit_idempotent (style1 style2 : Style) :
  join_styles ∅ style1 = style1
  ∧ join_styles style1 ∅ = style1
  ∧ join_styles style1 style1 = style1
  ∧ dom (join_styles style1 style2) = dom style1 ∪ dom style2.
Proof.
  repeat match goal with |- _ ∧ _ => split end.
  - apply map_eq. intros k. rewrite join_styles_lookup, lookup_empty.
    by destruct (style1 !! k).
  - apply map_eq. intros k. rewrite join_styles_lookup, lookup_empty.
    by destruct (style1 !! k).
  - apply map_eq. intros k. rewrite join_styles_lookup.
    destruct (style1 !! k) as [[? []]|]; done.
  - apply set_eq. intros k. rewrite elem_of_union, !elem_of_dom, join_styles_lookup.
    destruct (style1 !! k), (style2 !! k); split; intros H; try done;
      try (by eauto); try (by left); try (by right).
    destruct H as [[? ?]|[? ?]]; done.
Qed.

(** X17. [join_styles] does not lose importance, and is not commutative.
    A key that has an important declaration in one of the two styles has an
    important declaration in the join, the one of [style1] when that one is
    important; when both declare a key with the same importance the join
    has the value of [style1], so that the two orders of the operands give
    different styles as soon as the values differ. *)
Theorem join_styles_importance (style1 style2 : Style) (k : string) (v1 v2 : Value) :
  style1 !! k = Some v1 → style2 !! k = Some v2 →
  ∃ v : Value,
    join_styles style1 style2 !! k = Some v
    ∧ v.2 = v1.2 || v2.2
    ∧ (v1.2 = true → v = v1)
    ∧ (v1.2 = v2.2 → v = v1 ∧ join_styles style2 style1 !! k = Some v2).
Proof.
  intros H1 H2. rewrite !join_styles_lookup, H1, H2.
  eexists. split; [reflexivity|].
  destruct v1 as [s1 []], v2 as [s2 []]; cbn; repeat split; done.
Qed.

Lemma join_styles_importance_witness :
  ∃ v : Value,
    join_styles {[ "color" := ("red", false) ]} {[ "color" := ("blue", false) ]} !! "color"
    = Some v
    ∧ v.2 = false || false
    ∧ (false = true → v = ("red", false))
    ∧ (false = false →
       v = ("red", false)
       ∧ join_styles {[ "color" := ("blue", false) ]} {[ "color" := ("red", false) ]}
           !! "color" = Some ("blue", false)).
Proof.
  apply (join_styles_importance {[ "color" := ("red", false) ]}
           {[ "color" := ("blue", false) ]} "color" ("red", false) ("blue", false));
    apply lookup_singleton_eq.
Defined.

(** ** Important declarations *)

Lemma length_append (a b : string) :
  String.length (a +:+ b) = (String.length a + String.length b)%nat.
Proof.
  induction a as [|c a IH]; [reflexivity|].
  change (S (String.length (a +:+ b)) = S (String.length a + String.length b)).
  by rewrite IH.
Qed.

Lemma substring_all (s : string) : substring 0 (String.length s) s = s.
Proof. induction s as [|c s IH]; [reflexivity|]. cbn. by rewrite IH. Qed.

Lemma substring_append_l (a b : string) : substring 0 (String.length a) (a +:+ b) = a.
Proof.
  induction a as [|c a IH]; [by destruct b|].
  change (String c (substring 0 (String.length a) (a +:+ b)) = String c a).
  by rewrite IH.
Qed.

Lemma substring_append_r (a b : string) :
  substring (String.length a) (String.length b) (a +:+ b) = b.
Proof.
  induction a as [|c a IH]; [apply substring_all|].
  change (substring (String.length a) (String.length b) (a +:+ b) = b). exact IH.
Qed.

Lemma substring_split (k : nat) (s : string) :
  (k ≤ String.length s)%nat →
  substring 0 k s +:+ substring k (String.length s - k) s = s.
Proof.
  revert k. induction s as [|c s IH]; intros k Hk.
  - cbn in Hk. by replace k with 0%nat by lia.
  - destruct k as [|k].
    + change (substring 0 (String.length (String c s)) (String c s) = String c s).
      apply substring_all.
    + cbn in Hk.
      change (String c (substring 0 k s +:+ substring k (String.length s - k) s)
              = String c s).
      rewrite IH by lia. done.
Qed.

Lemma str_endswith_append (a b : string) : str_endswith (a +:+ b) b = true.
Proof.
  unfold str_endswith. rewrite length_append.
  replace (String.length a + String.length b - String.length b)%nat
    with (String.length a) by lia.
  rewrite substring_append_r, String.eqb_refl.
  apply andb_true_iff. split; [|done]. apply Nat.leb_le. lia.
Qed.

Lemma str_drop_end_append (a b : string) : str_drop_end (String.length b) (a +:+ b) = a.
Proof.
  unfold str_drop_end. rewrite length_append.
  replace (String.length a + String.length b - String.length b)%nat
    with (String.length a) by lia.
  apply substring_append_l.
Qed.

Lemma str_endswith_inv (s suffix : string) :
  str_endswith s suffix = true → s = str_drop_end (String.length suffix) s +:+ suffix.
Proof.
  unfold str_endswith, str_drop_end.
  intros [Hlen Heq%String.eqb_eq]%andb_true_iff. apply Nat.leb_le in Hlen.
  pose proof (substring_split (String.length s - String.length suffix) s) as Hs.
  replace (String.length s - (String.length s - String.length suffix))%nat
    with (String.length suffix) in Hs by lia.
  rewrite Heq in Hs. symmetry. apply Hs. lia.
Qed.

(** X18. [parse_important] and the suffix [!important]. A text that ends
    in [!important] is parsed into what is before the suffix, unchanged (a
    blank before the suffix stays), and the flag; any text is what
    [parse_important] gives for it, followed by the suffix when the flag is
    set; and a text is given back as it is exactly when the flag is not
    set. *)
Theorem parse_important_round_trip (s : string) :
  parse_important (s +:+ IMPORTANT) = (s, true)
  ∧ s = (parse_important s).1 +:+ (if (parse_important s).2 then IMPORTANT else EmptyString)
  ∧ ((parse_important s).2 = str_endswith s IMPORTANT)
  ∧ ((parse_important s).2 = false → (parse_important s).1 = s).
Proof.
  repeat match goal with |- _ ∧ _ => split end.
  - unfold parse_important.
    by rewrite str_endswith_append, str_drop_end_append.
  - unfold parse_important. destruct (str_endswith s IMPORTANT) eqn:E; cbn [fst snd].
    + by apply str_endswith_inv.
    + by rewrite append_empty.
  - unfold parse_important. by destruct (str_endswith s IMPORTANT).
  - unfold parse_important. by destruct (str_endswith s IMPORTANT).
Qed.

(** ** [process] *)

Lemma process_input_loop_NoDup (env : Env) (fuel : nat) (done0 done' : dict)
    (log log' : list string) :
  process_input_loop env fuel done0 log = Some (Return (done', log')) →
  NoDup (keys done').
Proof.
  revert done0 log. induction fuel as [|fuel IH]; intros done0 log; [done|].
  cbn [process_input_loop group_by_bool].
  destruct (is_nil _).
  - intros [= <- <-]. apply dict_of_items_NoDup.
  - destruct (inner env _ _ log) as [[done1 log1]|e]; [|done]. apply IH.
Qed.

Lemma process_input_NoDup (env : Env) (fuel : nat) (d : list (string * string))
    (done' : dict) (log' : list string) :
  process_input env fuel d = Some (Return (done', log')) → NoDup (keys done').
Proof.
  unfold process_input. destruct (inner env d [] []) as [[done0 log0]|e]; [|done].
  apply process_input_loop_NoDup.
Qed.

Lemma add_important_lookup_fold (style : dict) (imp : bool) (m : Style) (k : string) :
  NoDup (keys style) →
  foldl (λ m kv, <[kv.1 := (kv.2, imp)]> m) m style !! k
  = match assoc k style with Some v => Some (v, imp) | None => m !! k end.
Proof.
  revert m. induction style as [|[k0 v0] style IH]; intros m Hnd; [done|].
  inversion_clear Hnd as [|? ? Hk0 Hnd']. cbn [foldl assoc fst snd].
  rewrite IH by done.
  destruct (String.eqb_spec k0 k) as [->|Hne].
  - assert (assoc k style = None) as ->.
    { apply assoc_None. intros Hin. by apply Hk0, list_elem_of_In. }
    by rewrite lookup_insert_eq.
  - destruct (assoc k style); [done|]. by rewrite lookup_insert_ne.
Qed.

Lemma add_important_lookup (style : dict) (imp : bool) (k : string) :
  NoDup (keys style) →
  add_important style imp !! k = (λ v, (v, imp)) <$> assoc k style.
Proof.
  intros Hnd. unfold add_important. rewrite add_important_lookup_fold by done.
  by destruct (assoc k style).
Qed.

Lemma add_important_flag_fold (style : dict) (imp : bool) (m : Style) :
  (∀ k v, m !! k = Some v → v.2 = imp) →
  ∀ k v, foldl (λ m kv, <[kv.1 := (kv.2, imp)]> m) m style !! k = Some v → v.2 = imp.
Proof.
  revert m. induction style as [|[k0 v0] style IH]; intros m Hm; [done|].
  cbn [foldl fst snd]. apply IH. intros k v.
  destruct (decide (k0 = k)) as [->|Hne].
  - rewrite lookup_insert_eq. by intros [= <-].
  - rewrite lookup_insert_ne by done. apply Hm.
Qed.

Lemma add_important_flag (style : dict) (imp : bool) (k : string) (v : Value) :
  add_important style imp !! k = Some v → v.2 = imp.
Proof. apply add_important_flag_fold. intros k' v'. by rewrite lookup_empty. Qed.

(** X19. In [process] the important declarations win wherever they stand.
    When [process] has a result, the declarations that are not important
    and the important ones have been expanded apart, each in the order of
    the list, what was logged is the log of the first followed by the log of
    the second, and a property has in the result the value and the flag of
    the important expansion when that one sets it, and of the other one
    otherwise. *)
Theorem process_important_wins (env : Env) (fuel : nat) (d : list Property)
    (style : Style) (log : list string) :
  process env fuel d = Some (Return (style, log)) →
  ∃ (done1 : dict) (log1 : list string) (done2 : dict) (log2 : list string),
    process_input env fuel (remove_important (List.filter (λ t, negb (is_imp t.2)) d))
    = Some (Return (done1, log1))
    ∧ process_input env fuel (remove_important (List.filter (λ t, is_imp t.2) d))
      = Some (Return (done2, log2))
    ∧ log = log1 ++ log2
    ∧ ∀ k : string,
        style !! k
        = match assoc k done2 with
          | Some v => Some (v, true)
          | None => (λ v, (v, false)) <$> assoc k done1
          end.
Proof.
  unfold process. cbn [group_by_bool].
  destruct (process_input env fuel (remove_important (List.filter (λ t, negb _) d)))
    as [[[done1 log1]|e1]|] eqn:H1; [|done..].
  destruct (process_input env fuel (remove_important (List.filter (λ t, is_imp _) d)))
    as [[[done2 log2]|e2]|] eqn:H2; [|done..].
  intros [= <- <-]. exists done1, log1, done2, log2.
  repeat match goal with |- _ ∧ _ => split end; try done.
  intros k. rewrite lookup_union.
  rewrite !add_important_lookup by by eapply process_input_NoDup.
  by destruct (assoc k done2), (assoc k done1).
Qed.

Lemma process_important_wins_witness :
  ∃ (done1 : dict) (log1 : list string) (done2 : dict) (log2 : list string),
    process_input Sample.env 1
      (remove_important
         (List.filter (λ t, negb (is_imp t.2))
            [("color", ("red", true)); ("color", ("blue", false)); ("width", ("1px", false))]))
    = Some (Return (done1, log1))
    ∧ process_input Sample.env 1
        (remove_important
           (List.filter (λ t, is_imp t.2)
              [("color", ("red", true)); ("color", ("blue", false));
               ("width", ("1px", false))]))
      = Some (Return (done2, log2))
    ∧ [] = log1 ++ log2
    ∧ ∀ k : string,
        (add_important [("color", "red")] true
         ∪ add_important [("color", "blue"); ("width", "1px")] false : Style) !! k
        = match assoc k done2 with
          | Some v => Some (v, true)
          | None => (λ v, (v, false)) <$> assoc k done1
          end.
Proof.
  apply (process_important_wins Sample.env 1
           [("color", ("red", true)); ("color", ("blue", false)); ("width", ("1px", false))]).
  reflexivity.
Defined.

(** X20. [process] merges its two expansions as [join_styles] does. When
    both expansions have a result, the style that [process] returns with
    [|] is the join, by the rule of the cascade, of the expansion that is
    not important with the important one. *)
Theorem process_merge_is_join_styles (env : Env) (fuel : nat) (d : list Property)
    (done1 done2 : dict) (log1 log2 : list string) :
  process_input env fuel (remove_important (List.filter (λ t, negb (is_imp t.2)) d))
  = Some (Return (done1, log1)) →
  process_input env fuel (remove_important (List.filter (λ t, is_imp t.2) d))
  = Some (Return (done2, log2)) →
  process env fuel d
  = Some (Return (join_styles (add_important done1 false) (add_important done2 true),
                  log1 ++ log2)).
Proof.
  intros H1 H2. unfold process. cbn [group_by_bool]. rewrite H1, H2.
  do 3 f_equal. apply map_eq. intros k. rewrite lookup_union, join_styles_lookup.
  destruct (add_important done1 false !! k) as [v1|] eqn:E1,
    (add_important done2 true !! k) as [v2|] eqn:E2; try done.
  apply add_important_flag in E1, E2. cbn. by rewrite E1, E2.
Qed.

Lemma process_merge_is_join_styles_witness :
  process Sample.env 1 [("color", ("red", true)); ("color", ("blue", false))]
  = Some (Return (join_styles (add_important [("color", "blue")] false)
                    (add_important [("color", "red")] true), [] ++ [])).
Proof.
  apply (process_merge_is_join_styles Sample.env 1
           [("color", ("red", true)); ("color", ("blue", false))]); reflexivity.
Defined.

(** ** Keywords in [is_valid] and in [convert] *)

(** X21. [is_valid] and [StyleAttr.convert] disagree on keywords. For a
    registered property whose name is not one of its own keywords, a
    keyword of the property that its acceptor does not take is converted by
    [convert] to the value of the keyword, and is rejected by [is_valid]:
    the value is never looked up among the keywords there. So [width: auto]
    is reported as an invalid value. *)
Theorem is_valid_rejects_keywords (env : Env) (name value : string) (attr : StyleAttr)
    (kw : CompValue) (p_style : StyleComputed) :
  assoc name (style_attrs env) = Some attr →
  in_dict name (kws attr) = false →
  kws attr !! value = Some kw →
  accept env (acc attr) value ∅ = Return None →
  convert env attr value p_style = Return (Some kw)
  ∧ is_valid env name value = Return false
  ∧ (is_token value = true →
     process_property env name value = Raise (AssertionError (Some "Invalid Value"))).
Proof.
  intros Hattr Hname Hkw Hacc.
  assert (is_valid env name value = Return false) as Hvalid
    by (by rewrite (is_valid_canonical env name value attr Hattr), Hname, Hacc).
  repeat match goal with |- _ ∧ _ => split end.
  - unfold convert. by rewrite Hkw.
  - done.
  - intros Htoken.
    assert (in_style_attrs env name = true) as Hcan
      by (unfold in_style_attrs; by rewrite Hattr).
    pose proof Hcan as (Hall & Hdir & Hsmart & _)%canonical_plain%plain_name_inv.
    rewrite (process_property_plain env name value value) by (done || by apply split_token).
    by rewrite Hcan, Hvalid.
Qed.

Lemma is_valid_rejects_keywords_witness :
  convert Sample.env AALP "auto" ∅ = Return (Some Auto)
  ∧ is_valid Sample.env "width" "auto" = Return false
  ∧ (is_token "auto" = true →
     process_property Sample.env "width" "auto"
     = Raise (AssertionError (Some "Invalid Value"))).
Proof.
  apply (is_valid_rejects_keywords Sample.env "width" "auto" AALP Auto ∅); reflexivity.
Defined.

(** ** Default styles *)

Lemma assoc_fmap {A B} (f : A → B) (k : string) (l : list (string * A)) :
  assoc k ((λ kv, (kv.1, f kv.2)) <$> l) = f <$> assoc k l.
Proof.
  induction l as [|[k' v'] l IH]; [done|]. cbn. by destruct (String.eqb k' k).
Qed.

Lemma keys_fmap {A B} (f : A → B) (l : list (string * A)) :
  keys ((λ kv, (kv.1, f kv.2)) <$> l) = keys l.
Proof. induction l as [|[k' v'] l IH]; [done|]. cbn. by f_equal. Qed.

Lemma assoc_filter {A} (p : A → bool) (k : string) (l : list (string * A)) :
  NoDup (keys l) →
  assoc k (List.filter (λ kv, p kv.2) l)
  = match assoc k l with
    | Some v => if p v then Some v else None
    | None => None
    end.
Proof.
  induction l as [|[k' v'] l IH]; [done|]. intros Hnd.
  inversion_clear Hnd as [|? ? Hk' Hnd']. cbn.
  destruct (String.eqb_spec k' k) as [->|Hne].
  - destruct (p v'); cbn; [by rewrite String.eqb_refl|].
    rewrite IH by done.
    assert (assoc k l = None) as ->; [|done].
    apply assoc_None. intros Hin. by apply Hk', list_elem_of_In.
  - destruct (p v'); cbn; [rewrite (eqb_ne _ _ Hne)|]; by apply IH.
Qed.

Lemma keys_filter_NoDup {A} (p : string * A → bool) (l : list (string * A)) :
  NoDup (keys l) → NoDup (keys (List.filter p l)).
Proof.
  induction l as [|kv l IH]; [done|]. intros Hnd.
  inversion_clear Hnd as [|? ? Hk Hnd']. cbn.
  destruct (p kv); [|by apply IH]. cbn. constructor; [|by apply IH].
  intros Hin. apply Hk. unfold keys in *.
  apply list_elem_of_fmap in Hin as (x & -> & Hx).
  apply list_elem_of_fmap. exists x. split; [done|].
  apply list_elem_of_In. apply list_elem_of_In, filter_In in Hx. tauto.
Qed.

Lemma style_attrs_NoDup (env : Env) : NoDup (keys (style_attrs env)).
Proof. rewrite style_attrs_keys. apply canonical_names_NoDup. Qed.

Lemma abs_default_style_assoc (env : Env) (k : string) :
  assoc k (abs_default_style env)
  = (λ attr, if inherits attr then "inherit" else initial attr) <$> assoc k (style_attrs env).
Proof.
  unfold abs_default_style. rewrite dict_of_items_distinct.
  - apply (assoc_fmap (λ attr, if inherits attr then "inherit" else initial attr)).
  - rewrite (keys_fmap (λ attr, if inherits attr then "inherit" else initial attr)).
    apply style_attrs_NoDup.
Qed.

Lemma initial_not_inherit (env : Env) (k : string) (attr : StyleAttr) :
  assoc k (style_attrs env) = Some attr → initial attr ≠ "inherit".
Proof.
  intros H%assoc_Some_In.
  assert (forallb (λ kv, negb (String.eqb (initial kv.2) "inherit")) (style_attrs env) = true)
    as Hall by reflexivity.
  rewrite forallb_forall in Hall. apply Hall in H. cbn in H.
  apply negb_true_iff, String.eqb_neq in H. done.
Qed.

(** X22. The root element never inherits. For every registered property
    the style of the tag [html] has a value, which is [block] for [display]
    and the initial value of the property otherwise, and is never
    [inherit]. *)
Theorem root_style_never_inherits (env : Env) (k : string) (attr : StyleAttr) :
  assoc k (style_attrs env) = Some attr →
  ∃ v : string,
    ReadChain_getitem (get_style env "html") k = Return v
    ∧ v = (if String.eqb k "display" then "block" else initial attr)
    ∧ v ≠ "inherit".
Proof.
  intros Hattr. pose proof (initial_not_inherit env k attr Hattr) as Hinit.
  unfold ReadChain_getitem, get_style, level1, level2, element_styles.
  cbn [String.eqb Ascii.eqb Bool.eqb]. rewrite assoc_dict_set.
  destruct (String.eqb_spec "display" k) as [<-|Hne].
  { eexists. split; [done|]. split; [done|discriminate]. }
  rewrite (eqb_ne _ _ (not_eq_sym Hne)).
  rewrite dict_of_items_distinct.
  2:{ rewrite (keys_fmap initial). apply keys_filter_NoDup, style_attrs_NoDup. }
  rewrite (assoc_fmap initial), (assoc_filter inherits) by apply style_attrs_NoDup.
  rewrite Hattr. unfold dict_getitem. rewrite abs_default_style_assoc, Hattr.
  destruct (inherits attr) eqn:E; cbn; rewrite ?E; eauto.
Qed.

Lemma root_style_never_inherits_witness :
  ∃ v : string,
    ReadChain_getitem (get_style Sample.env "html") "color" = Return v
    ∧ v = (if String.eqb "color" "display" then "block" else "canvastext")
    ∧ v ≠ "inherit".
Proof.
  apply (root_style_never_inherits Sample.env "color"
           (StyleAttr_init "canvastext" ∅ acc_color None)).
  reflexivity.
Defined.

(** X23. The style of any other tag falls through to the defaults. For a
    tag other than [html], and a property other than [display] when the tag
    is [head], a lookup in [get_style] gives [inherit] for a registered
    property that inherits, its initial value for one that does not, and
    raises [KeyError] for a name that is not registered; [display] of [head]
    is [none]. *)
Theorem get_style_falls_through (env : Env) (tag k : string) :
  tag ≠ "html" →
  (tag = "head" → k ≠ "display") →
  ReadChain_getitem (get_style env tag) k
  = match assoc k (style_attrs env) with
    | Some attr => Return (if inherits attr then "inherit" else initial attr)
    | None => Raise KeyError
    end
  ∧ ReadChain_getitem (get_style env "head") "display" = Return "none".
Proof.
  intros Hhtml Hhead. split; [|reflexivity].
  unfold ReadChain_getitem, get_style, level1, level2, element_styles.
  rewrite (eqb_ne _ _ Hhtml).
  assert (assoc k (if String.eqb tag "head" then [("display", "none")] else [])
          = None) as ->.
  { destruct (String.eqb_spec tag "head") as [->|]; [|done].
    cbn [assoc]. by rewrite (eqb_ne _ _ (not_eq_sym (Hhead eq_refl))). }
  unfold dict_getitem. rewrite abs_default_style_assoc.
  by destruct (assoc k (style_attrs env)).
Qed.

Lemma get_style_falls_through_witness :
  ReadChain_getitem (get_style Sample.env "head") "width"
  = match assoc "width" (style_attrs Sample.env) with
    | Some attr => Return (if inherits attr then "inherit" else initial attr)
    | None => Raise KeyError
    end
  ∧ ReadChain_getitem (get_style Sample.env "head") "display" = Return "none".
Proof.
  apply (get_style_falls_through Sample.env "head" "width"); discriminate.
Defined.

(** ** Source sheets *)

Lemma Media_eqb_refl (m : Media) : Media_eqb m m = true.
Proof.
  unfold Media_eqb. apply andb_true_iff. split; apply Qeq_bool_iff, Qeq_refl.
Qed.

Section AllRules.
Context (env : Env).

Let sound (self : SourceSheet) : Prop :=
  coherent self →
  (all_rules env self).1 = flatten self
  ∧ coherent (all_rules env self).2
  ∧ flatten (all_rules env self).2 = flatten self.

Lemma rules_loop_sound (rules : list Rule) :
  Forall (λ rule, match rule with RMedia _ sub => sound sub | _ => True end) rules →
  coherent_rules coherent rules →
  (rules_loop (all_rules env) (get_media env) rules).1 = flatten_rules flatten rules
  ∧ coherent_rules coherent (rules_loop (all_rules env) (get_media env) rules).2
  ∧ flatten_rules flatten (rules_loop (all_rules env) (get_media env) rules).2
    = flatten_rules flatten rules.
Proof.
  induction rules as [|rule rest IH]; intros Hall Hco; [done|].
  inversion_clear Hall as [|? ? Hrule Hrest]. destruct Hco as [Hco1 Hco2].
  destruct (IH Hrest Hco2) as (IH1 & IH2 & IH3). cbn [rules_loop].
  destruct (rules_loop (all_rules env) (get_media env) rest) as [rv2 rest'].
  cbn [fst snd] in IH1, IH2, IH3.
  destruct rule as [r|media sub|].
  - cbn. by rewrite IH1, IH3.
  - cbn [MediaRule_matches]. destruct (Hrule Hco1) as (H1 & H2 & H3).
    destruct (all_rules env sub) as [l sub']. cbn [fst snd] in H1, H2, H3.
    cbn. by rewrite H1, H3, IH1, IH3.
  - cbn. by rewrite IH1, IH3.
Qed.

Lemma all_rules_sound (self : SourceSheet) : sound self.
Proof.
  induction self as [rules last Hall] using sheet_induction.
  intros [Hlast Hrules].
  destruct (rules_loop_sound rules Hall Hrules) as (H1 & H2 & H3).
  cbn [all_rules].
  destruct last as [[lastmedia lastrules]|];
    [destruct (Media_eqb lastmedia (get_media env))|].
  - cbn [fst snd]. repeat split; done.
  - destruct (rules_loop (all_rules env) (get_media env) rules) as [rv rules'].
    cbn [fst snd] in *. cbn [coherent flatten]. by rewrite H3, H1.
  - destruct (rules_loop (all_rules env) (get_media env) rules) as [rv rules'].
    cbn [fst snd] in *. cbn [coherent flatten]. by rewrite H3, H1.
Qed.

End AllRules.

Lemma flatten_rules_app (rules1 rules2 : list Rule) :
  flatten_rules flatten (rules1 ++ rules2)
  = flatten_rules flatten rules1 ++ flatten_rules flatten rules2.
Proof.
  induction rules1 as [|rule rest IH]; [done|]. cbn. by rewrite IH, app_assoc.
Qed.

Lemma coherent_rules_app (rules1 rules2 : list Rule) :
  coherent_rules coherent rules1 → coherent_rules coherent rules2 →
  coherent_rules coherent (rules1 ++ rules2).
Proof. induction rules1 as [|rule rest IH]; [done|]. cbn. intros [? ?] ?. auto. Qed.

(** X24. [all_rules] is the flattening of the sheet, for every window. On
    a sheet as its constructor and earlier calls leave it, [all_rules]
    returns the style rules of the sheet in their order, those of a media
    rule in the place of the rule and other at-rules left out, whatever the
    size of the window: every media rule matches. The call changes nothing
    but what the sheets remember. *)
Theorem all_rules_flattens (env : Env) (self : SourceSheet) :
  coherent self →
  (all_rules env self).1 = flatten self
  ∧ coherent (all_rules env self).2
  ∧ flatten (all_rules env self).2 = flatten self
  ∧ ∀ env' : Env, (all_rules env' (all_rules env self).2).1 = (all_rules env self).1.
Proof.
  intros Hco. destruct (all_rules_sound env self Hco) as (H1 & H2 & H3).
  repeat match goal with |- _ ∧ _ => split end; try done.
  intros env'. destruct (all_rules_sound env' _ H2) as (H1' & _).
  by rewrite H1', H3, H1.
Qed.

Lemma all_rules_flattens_witness :
  (all_rules Sample.env
     (Sheet [RStyle ("p", ∅); RAt;
             RMedia ["screen"] (Sheet [RStyle ("a", ∅)] None); RStyle ("b", ∅)] None)).1
  = [("p", ∅); ("a", ∅); ("b", ∅)].
Proof.
  apply (all_rules_flattens Sample.env
           (Sheet [RStyle ("p", ∅); RAt;
                   RMedia ["screen"] (Sheet [RStyle ("a", ∅)] None); RStyle ("b", ∅)]
              None)).
  cbn. tauto.
Defined.

(** X25. The second call of [all_rules] is answered from what the sheet
    remembers. After a call, with the window unchanged, [all_rules] returns
    the same list and leaves the sheet as it is, for every sheet. *)
Theorem all_rules_cached (env : Env) (self : SourceSheet) :
  all_rules env (all_rules env self).2 = all_rules env self.
Proof.
  destruct self as [rules last]. cbn [all_rules].
  destruct last as [[lastmedia lastrules]|];
    [destruct (Media_eqb lastmedia (get_media env)) eqn:E|].
  - cbn [snd all_rules]. by rewrite E.
  - destruct (rules_loop (all_rules env) (get_media env) rules) as [rv rules'].
    cbn [snd all_rules]. by rewrite Media_eqb_refl.
  - destruct (rules_loop (all_rules env) (get_media env) rules) as [rv rules'].
    cbn [snd all_rules]. by rewrite Media_eqb_refl.
Qed.

(** X26. The rules of a sum and of a join of sheets. [all_rules] of
    [self + other] is [all_rules] of [self] followed by [all_rules] of
    [other], and [all_rules] of [SourceSheet.join] of two sheets is the
    same. *)
Theorem all_rules_add (env : Env) (self other : SourceSheet) :
  coherent self → coherent other →
  (all_rules env (SourceSheet_add self other)).1
  = (all_rules env self).1 ++ (all_rules env other).1
  ∧ (all_rules env (SourceSheet_join [self; other])).1
    = (all_rules env (SourceSheet_add self other)).1.
Proof.
  intros Hself Hother.
  assert (coherent (SourceSheet_add self other)) as Hadd.
  { destruct self as [rules1 last1], other as [rules2 last2].
    destruct Hself as [_ H1], Hother as [_ H2].
    split; [done|]. by apply coherent_rules_app. }
  split.
  - rewrite (proj1 (all_rules_sound env _ Hadd)),
      (proj1 (all_rules_sound env _ Hself)), (proj1 (all_rules_sound env _ Hother)).
    destruct self as [rules1 last1], other as [rules2 last2].
    apply flatten_rules_app.
  - unfold SourceSheet_join, SourceSheet_add. cbn [fmap list_fmap concat].
    by rewrite app_nil_r.
Qed.

Lemma all_rules_add_witness :
  (all_rules Sample.env
     (SourceSheet_add (Sheet [RStyle ("p", ∅)] None)
        (Sheet [RMedia ["screen"] (Sheet [RStyle ("a", ∅)] None)] None))).1
  = (all_rules Sample.env (Sheet [RStyle ("p", ∅)] None)).1
    ++ (all_rules Sample.env
          (Sheet [RMedia ["screen"] (Sheet [RStyle ("a", ∅)] None)] None)).1.
Proof.
  apply (all_rules_add Sample.env (Sheet [RStyle ("p", ∅)] None)
           (Sheet [RMedia ["screen"] (Sheet [RStyle ("a", ∅)] None)] None));
    cbn; tauto.
Defined.
